(** * netcoredbg: the debugger core of [src/debug/netcoredbg/main.cpp]

    A shallow embedding of the event dispatcher ([ManagedCallback]), the
    process registry ([g_process] with its mutex and condition variable),
    the output serializer ([out_printf], [EscapeMIValue]), the safe memory
    reader and the [Debugger] facade, followed by the properties of the
    specification that speak about them. *)

From Stdlib Require Import ZArith String Ascii List Bool Lia.
From Stdlib Require DecimalString HexadecimalString.
Import ListNotations.

Local Open Scope string_scope.
Local Open Scope Z_scope.

(** ** Machine integers *)

Module Int.

(** Unsigned [w]-bit wrap-around. *)
Definition wrap (w : Z) (x : Z) : Z := x mod 2 ^ w.

(** [ULONG], [DWORD], [ULONG32]. *)
Definition u32 (x : Z) : Z := wrap 32 x.

(** [size_t], [SIZE_T], [TADDR], [CORDB_ADDRESS] on the 64-bit targets. *)
Definition u64 (x : Z) : Z := wrap 64 x.

(** The conversion to [int] (and to [HRESULT]) of a 32-bit pattern. *)
Definition i32 (x : Z) : Z :=
  let r := u32 x in if r <? 2 ^ 31 then r else r - 2 ^ 32.

End Int.

(** ** HRESULT *)

Definition HRESULT := Z.

Definition S_OK : HRESULT := 0.
Definition E_FAIL : HRESULT := Int.i32 0x80004005.
Definition E_INVALIDARG : HRESULT := Int.i32 0x80070057.

Definition SUCCEEDED (hr : HRESULT) : bool := 0 <=? hr.
Definition FAILED (hr : HRESULT) : bool := hr <? 0.

(** [BOOL] is an [int]; a condition on it tests for non-zero. *)
Definition BOOL := Z.
Definition TRUE : BOOL := 1.
Definition FALSE : BOOL := 0.
Definition truth (b : BOOL) : bool := negb (b =? 0).

(** The result of a native call with an out parameter: on success the value
    stored through the pointer, on failure the failing code (the out
    parameter keeps what it held). *)
Inductive comres (A : Type) : Type :=
| COk (a : A)
| CErr (hr : HRESULT).
Arguments COk {A} a.
Arguments CErr {A} hr.

(** ** Characters and [std::string] *)

Module Chr.
Definition NUL : ascii := "000"%char.
Definition LF : ascii := "010"%char.
Definition DQ : ascii := "034"%char.
Definition BSL : ascii := "\"%char.
End Chr.

Module StdString.

Definition size (s : string) : nat := String.length s.

(** [s.at(i)]: [None] stands for [std::out_of_range]. *)
Definition at_ (s : string) (i : nat) : option ascii := String.get i s.

Fixpoint fill (count : nat) (c : ascii) : string :=
  match count with
  | O => EmptyString
  | S n => String c (fill n c)
  end.

(** [s.insert(i, count, c)]: [count] copies of [c] before position [i];
    [None] ([std::out_of_range]) when [i > size]. *)
Fixpoint insert (s : string) (i count : nat) (c : ascii) {struct i} : option string :=
  match i with
  | O => Some (fill count c ++ s)%string
  | S i' =>
      match s with
      | EmptyString => None
      | String a s' =>
          match insert s' i' count c with
          | Some r => Some (String a r)
          | None => None
          end
      end
  end.

(** [s[i] = c]; [None] when [i] is not the index of a character. *)
Fixpoint assign (s : string) (i : nat) (c : ascii) : option string :=
  match s with
  | EmptyString => None
  | String a s' =>
      match i with
      | O => Some (String c s')
      | S i' =>
          match assign s' i' c with
          | Some r => Some (String a r)
          | None => None
          end
      end
  end.

(** [s.c_str()] read as a C string: the characters before the first NUL. *)
Fixpoint c_str (s : string) : string :=
  match s with
  | EmptyString => EmptyString
  | String a s' => if Ascii.eqb a Chr.NUL then EmptyString else String a (c_str s')
  end.

End StdString.

(** ** [EscapeMIValue] *)

(** The [switch] of [EscapeMIValue]: for a character of the escape set, the
    character that is written after the inserted backslash. *)
Definition escape_letter (c : ascii) : option ascii :=
  match c with
  | "034"%char => Some "034"%char
  | "\"%char => Some "\"%char
  | "000"%char => Some "0"%char
  | "007"%char => Some "a"%char
  | "008"%char => Some "b"%char
  | "012"%char => Some "f"%char
  | "010"%char => Some "n"%char
  | "013"%char => Some "r"%char
  | "009"%char => Some "t"%char
  | "011"%char => Some "v"%char
  | _ => None
  end.

(** The [for] loop, on the index [i] and the working copy [s].  One unit of
    fuel is one evaluation of the loop test; [None] is an exception of
    [at]/[insert]/[operator[]] or fuel that ran out before the test failed. *)
Fixpoint EscapeMIValue_loop (fuel : nat) (i : nat) (s : string) : option string :=
  match fuel with
  | O => None
  | S fuel' =>
      if (i <? StdString.size s)%nat then
        match StdString.at_ s i with
        | None => None
        | Some c =>
            match escape_letter c with
            | Some m =>
                let count := 1%nat in
                match StdString.insert s i count Chr.BSL with
                | None => None
                | Some s1 =>
                    match StdString.assign s1 (i + count) m with
                    | None => None
                    | Some s2 => EscapeMIValue_loop fuel' (i + count + 1) s2
                    end
                end
            | None =>
                let count := 0%nat in
                EscapeMIValue_loop fuel' (i + count + 1) s
            end
        end
      else Some s
  end.

(** The loop test runs once per character of [str] and once more to fail. *)
Definition EscapeMIValue (str : string) : option string :=
  EscapeMIValue_loop (S (StdString.size str)) 0 str.

(** What the loop computes, character by character. *)
Definition escape_char (c : ascii) : string :=
  match escape_letter c with
  | Some m => String Chr.BSL (String m EmptyString)
  | None => String c EmptyString
  end.

Fixpoint escaped (s : string) : string :=
  match s with
  | EmptyString => EmptyString
  | String c s' => (escape_char c ++ escaped s')%string
  end.

(** The escape set of the specification. *)
Definition in_escape_set (c : ascii) : bool :=
  match escape_letter c with Some _ => true | None => false end.

Fixpoint plain (s : string) : bool :=
  match s with
  | EmptyString => true
  | String c s' => negb (in_escape_set c) && plain s'
  end.

(** The matching unescape of the specification (section 8).  It is not part
    of the source; it reads a backslash followed by one of the ten letters
    back into the character that [EscapeMIValue] replaced, and copies every
    other character. *)
Definition unescape_letter (m : ascii) : option ascii :=
  match m with
  | "034"%char => Some "034"%char
  | "\"%char => Some "\"%char
  | "0"%char => Some "000"%char
  | "a"%char => Some "007"%char
  | "b"%char => Some "008"%char
  | "f"%char => Some "012"%char
  | "n"%char => Some "010"%char
  | "r"%char => Some "013"%char
  | "t"%char => Some "009"%char
  | "v"%char => Some "011"%char
  | _ => None
  end.

Fixpoint UnescapeMIValue (s : string) : string :=
  match s with
  | EmptyString => EmptyString
  | String c rest =>
      if Ascii.eqb c Chr.BSL then
        match rest with
        | EmptyString => String c EmptyString
        | String m rest' =>
            match unescape_letter m with
            | Some o => String o (UnescapeMIValue rest')
            | None => String c (UnescapeMIValue rest)
            end
        end
      else String c (UnescapeMIValue rest)
  end.

(** ** printf conversions *)

Module Fmt.

Definition dq : string := String Chr.DQ EmptyString.
Definition nl : string := String Chr.LF EmptyString.

(** [%i] of an [int]. *)
Definition i (x : Z) : string :=
  DecimalString.NilZero.string_of_int (Z.to_int x).

(** [%u] of an [unsigned int], and [<< std::dec] of an unsigned value. *)
Definition u (x : Z) : string :=
  DecimalString.NilZero.string_of_uint (N.to_uint (Z.to_N x)).

(** [<< std::hex] of an unsigned value. *)
Definition hex (x : Z) : string :=
  HexadecimalString.NilZero.string_of_uint (N.to_hex_uint (Z.to_N x)).

(** [%s] of [str.c_str()]. *)
Definition s (str : string) : string := StdString.c_str str.

(** [<<] of a [bool] (no [boolalpha]). *)
Definition b (x : bool) : string := if x then "1" else "0".

End Fmt.

(** ** Native debugging objects

    An interface pointer is modelled by the answers of the object behind
    it.  Calls that only query the object are answered by its record;
    calls that act on the debuggee are also written to the call log of the
    [World] below, under the [nat] that names the object. *)

Record ICorDebugValue := { value_id : nat }.

Record IMetaDataImport := { metadata_GetScopeProps : comres string }.

Record IUnknown := { unknown_QueryInterface : comres IMetaDataImport }.

Record ICorDebugModule := {
  module_id : nat;
  module_GetMetaDataInterface : comres IUnknown
}.

Record ICorDebugFunction := { function_GetModule : comres ICorDebugModule }.

Record ICorDebugFrame := {
  frame_id : nat;
  frame_GetFunction : comres ICorDebugFunction
}.

Record ICorDebugThread := {
  thread_GetID : comres Z;
  thread_GetActiveFrame : comres ICorDebugFrame;
  thread_GetCurrentException : comres ICorDebugValue
}.

Record ICorDebugBreakpoint := { breakpoint_id : nat }.
Record ICorDebugStepper := { stepper_id : nat }.

(** An enumerator is the list of the items that [Next(1, ..)] hands out
    before it fails or fetches nothing. *)
Record ICorDebugAppDomain := {
  appdomain_id : nat;
  appdomain_EnumerateBreakpoints : comres (list ICorDebugBreakpoint);
  appdomain_EnumerateSteppers : comres (list ICorDebugStepper)
}.

(** The answer of [ICorDebugProcess::ReadMemory]: the status and what the
    call stores through [read] ([None]: nothing). *)
Record ReadAnswer := {
  read_status : HRESULT;
  read_stored : option Z
}.

(** The debuggee runs on its own, so what a read returns depends on when it
    is made: [process_ReadMemory k address size] answers the read that comes
    after [k] earlier reads. *)
Record ICorDebugProcess := {
  process_id : nat;
  process_Stop : HRESULT;
  process_EnumerateAppDomains : comres (list ICorDebugAppDomain);
  process_ReadMemory : nat -> Z -> Z -> ReadAnswer
}.

Record ICorDebug := {
  cordebug_id : nat;
  cordebug_Initialize : HRESULT;
  cordebug_SetManagedHandler : HRESULT;
  cordebug_DebugActiveProcess : Z -> comres ICorDebugProcess
}.

Record ICordbUnknown := { cordb_QueryInterface : comres ICorDebug }.

(** Arguments that no handler looks at. *)
Definition ICorDebugClass := nat.
Definition ICorDebugAssembly := nat.
Definition ICorDebugEval := nat.

(** [ICorDebugController] is the base of app domains and of processes. *)
Inductive ICorDebugController :=
| Controller_AppDomain (id : nat)
| Controller_Process (id : nat).

Definition AppDomain_controller (d : ICorDebugAppDomain) : ICorDebugController :=
  Controller_AppDomain (appdomain_id d).
Definition Process_controller (p : ICorDebugProcess) : ICorDebugController :=
  Controller_Process (process_id p).

(** The value of a local variable initialised to [init] after a call that
    takes its address. *)
Definition out_param {A} (init : A) (r : comres A) : A :=
  match r with COk v => v | CErr _ => init end.

(** ** Collaborators declared but not defined in this file *)

Record ModuleSymbols := {
  symbols_id : string;
  symbols_name : string;
  symbols_symbolsLoaded : bool;
  symbols_baseAddress : Z;
  symbols_size : Z
}.

Record Collaborators := {
  (** [OSPageSize()] of platform.h. *)
  OSPageSize : Z;
  (** [FindCurrentBreakpointId(pThread, id)]. *)
  FindCurrentBreakpointId : ICorDebugThread -> comres Z;
  (** [PrintFrameLocation(pFrame, output)]: what [output] holds afterwards
      (it is empty before, at every call). *)
  PrintFrameLocation : ICorDebugFrame -> string;
  (** [TryLoadModuleSymbols]: its five reference arguments afterwards. *)
  TryLoadModuleSymbols : ICorDebugModule -> ModuleSymbols;
  (** [TypePrinter::GetTypeOfValue(pValue, output)]. *)
  GetTypeOfValue : ICorDebugValue -> string;
  (** [GetCoreCLRPath(pid)] of platform.h. *)
  GetCoreCLRPath : Z -> string;
  CreateVersionStringFromModule : Z -> string -> comres string;
  CreateDebuggingInterfaceFromVersionEx : Z -> string -> comres ICordbUnknown
}.

(** ** The state *)

(** Calls that act on the debuggee, on the native interface or on the state
    of a collaborator, in the order in which they are issued. *)
Inductive Call :=
| Call_Continue (controller : ICorDebugController) (fIsOutOfBand : BOOL)
| Call_Stop (process : nat) (dwTimeout : Z)
| Call_Detach (process : nat)
| Call_Terminate (process : nat) (exitCode : Z)
| Call_AddRef (process : nat)
| Call_Release (process : nat)
| Call_ReadMemory (process : nat) (address size : Z)
| Call_Activate (breakpoint : nat) (bActive : BOOL)
| Call_Deactivate (stepper : nat)
| Call_Initialize (cordebug : nat)
| Call_SetManagedHandler (cordebug : nat)
| Call_DebugActiveProcess (cordebug : nat) (pid : Z)
| Call_CorDebugTerminate (cordebug : nat)
| Call_DeleteAllBreakpoints
| Call_CleanupAllModules
| Call_NotifyEvalComplete
| Call_TryResolveBreakpointsForModule (module : nat)
| Call_SetCoreCLRPath (coreclrPath : string).

(** The globals of the file, the standard output and the call log. *)
Record World := {
  g_process : option ICorDebugProcess;
  g_lastStoppedThreadId : Z;
  stdout : string;
  calls : list Call
}.

Definition set_g_process (v : option ICorDebugProcess) (w : World) : World :=
  {| g_process := v; g_lastStoppedThreadId := g_lastStoppedThreadId w;
     stdout := stdout w; calls := calls w |}.

Definition set_g_lastStoppedThreadId (v : Z) (w : World) : World :=
  {| g_process := g_process w; g_lastStoppedThreadId := v;
     stdout := stdout w; calls := calls w |}.

Definition write_stdout (text : string) (w : World) : World :=
  {| g_process := g_process w; g_lastStoppedThreadId := g_lastStoppedThreadId w;
     stdout := (stdout w ++ text)%string; calls := calls w |}.

Definition log_call (c : Call) (w : World) : World :=
  {| g_process := g_process w; g_lastStoppedThreadId := g_lastStoppedThreadId w;
     stdout := stdout w; calls := calls w ++ [c] |}.

Definition is_Continue (c : Call) : bool :=
  match c with Call_Continue _ _ => true | _ => false end.

(** How many resume calls the log holds. *)
Definition continues (w : World) : nat :=
  List.length (List.filter is_Continue (calls w)).

Definition is_ReadMemory (c : Call) : bool :=
  match c with Call_ReadMemory _ _ _ => true | _ => false end.

Definition reads (w : World) : nat :=
  List.length (List.filter is_ReadMemory (calls w)).

(** The fields of the [Debugger] object; only the thread that runs the
    commands touches them, so they are passed along with its programs.
    ([m_managedCallback] only counts references.) *)
Record Debugger := {
  m_pProcess : option ICorDebugProcess;
  m_pDebug : option ICorDebug
}.

(** ** Programs

    A program of one thread, cut where another thread can run in between.
    [Atom upd next] is one indivisible step (a critical section of a mutex,
    or one call): it changes the state by [upd] and goes on as [next] says
    for the state the step started in.  [Wait cond k] stays where it is
    until [cond] holds.  [Fault] is a run that the language leaves
    undefined (a null pointer dereferenced, an exception out of a
    handler). *)
Inductive Prog (A : Type) : Type :=
| Ret (a : A)
| Atom (upd : World -> World) (next : World -> Prog A)
| Wait (cond : World -> bool) (k : Prog A)
| Fault.
Arguments Ret {A} a.
Arguments Atom {A} upd next.
Arguments Wait {A} cond k.
Arguments Fault {A}.

Fixpoint bind {A B} (m : Prog A) (f : A -> Prog B) : Prog B :=
  match m with
  | Ret a => f a
  | Atom upd next => Atom upd (fun w => bind (next w) f)
  | Wait cond k => Wait cond (bind k f)
  | Fault => Fault
  end.

Declare Scope prog_scope.
Delimit Scope prog_scope with prog.
Notation "x <- m ;; k" := (bind m (fun x => k))
  (at level 61, m at next level, right associativity) : prog_scope.
Notation "m ;; k" := (bind m (fun _ => k))
  (at level 61, right associativity) : prog_scope.
Local Open Scope prog_scope.

Definition atomic {A} (f : World -> A * World) : Prog A :=
  Atom (fun w => snd (f w)) (fun w => Ret (fst (f w))).

(** How a program of one thread ends when no other thread runs. *)
Inductive Outcome (A : Type) : Type :=
| Returned (a : A) (w : World)
| Blocked (w : World)
| Faulted (w : World).
Arguments Returned {A} a w.
Arguments Blocked {A} w.
Arguments Faulted {A} w.

Fixpoint run {A} (m : Prog A) (w : World) : Outcome A :=
  match m with
  | Ret a => Returned a w
  | Atom upd next => run (next w) (upd w)
  | Wait cond k => if cond w then run k w else Blocked w
  | Fault => Faulted w
  end.

Section Core.

Variable env : Collaborators.

(** ** Process registry *)

(** [ProcessCreated]: one critical section of [g_processMutex]. *)
Definition ProcessCreated (pProcess : ICorDebugProcess) : Prog unit :=
  atomic (fun w =>
    (tt, set_g_process (Some pProcess) (log_call (Call_AddRef (process_id pProcess)) w))).

(** [NotifyProcessExited]: the critical section calls [Release] through
    [g_process], which is undefined when it is null, and clears it; the
    waiter of [g_processCV] then finds its condition true.  (The section is
    taken to end at the explicit [unlock]; the second unlock, by the
    [lock_guard], is left out.) *)
Definition NotifyProcessExited : Prog unit :=
  Atom (fun w =>
          match g_process w with
          | Some p => set_g_process None (log_call (Call_Release (process_id p)) w)
          | None => w
          end)
       (fun w =>
          match g_process w with
          | Some _ => Ret tt
          | None => Fault
          end).

Definition no_process (w : World) : bool :=
  match g_process w with Some _ => false | None => true end.

(** [WaitProcessExited]: returns at once when [g_process] is null, and
    otherwise when the condition variable finds it null. *)
Definition WaitProcessExited : Prog unit :=
  Wait no_process (Ret tt).

(** ** Safe memory reader *)

Definition NextOSPageAddress (addr : Z) : Z :=
  let pageSize := OSPageSize env in
  Z.land (Int.u64 (addr + pageSize)) (Int.u64 (Z.lnot (Int.u64 (pageSize - 1)))).

(** [g_process->ReadMemory(address, size, buffer, &read)]. *)
Definition ReadMemory (p : ICorDebugProcess) (address size : Z) (w : World)
  : ReadAnswer * World :=
  (process_ReadMemory p (reads w) address size,
   log_call (Call_ReadMemory (process_id p) address size) w).

Definition store {A} (stored : option A) (variable : A) : A :=
  match stored with Some v => v | None => variable end.

(** What [SafeReadMemory] hands back: its [BOOL], and what it stored
    through [lpcbBytesRead] ([None]: nothing). *)
Record SafeRead := {
  safe_bRet : bool;
  safe_cbBytesRead : option Z
}.

(** The body of [SafeReadMemory], all of it under [g_processMutex]. *)
Definition SafeReadMemory_locked (offset cb : Z) (w : World) : SafeRead * World :=
  match g_process w with
  | None => ({| safe_bRet := false; safe_cbBytesRead := None |}, w)
  | Some p =>
      let bytesRead := 0 in
      let (a1, w1) := ReadMemory p offset cb w in
      let bytesRead := store (read_stored a1) bytesRead in
      let bRet := SUCCEEDED (read_status a1) in
      if negb bRet then
        let cb := Int.u32 (Int.u64 (NextOSPageAddress offset - offset)) in
        let (a2, w2) := ReadMemory p offset cb w1 in
        let bytesRead := store (read_stored a2) bytesRead in
        let bRet := SUCCEEDED (read_status a2) in
        ({| safe_bRet := bRet; safe_cbBytesRead := Some (Int.u32 bytesRead) |}, w2)
      else
        ({| safe_bRet := bRet; safe_cbBytesRead := Some (Int.u32 bytesRead) |}, w1)
  end.

Definition SafeReadMemory (offset cb : Z) : Prog SafeRead :=
  atomic (SafeReadMemory_locked offset cb).

(** The length that the second [ReadMemory] of [SafeReadMemory] asks for. *)
Definition fallback_cb (offset : Z) : Z :=
  Int.u32 (Int.u64 (NextOSPageAddress offset - offset)).

(** ** Output serializer *)

(** [out_printf]: the formatted text goes out under [g_outMutex]. *)
Definition out_printf (text : string) : Prog unit :=
  atomic (fun w => (tt, write_stdout text w)).

(** A call that acts on the debuggee or on a collaborator. *)
Definition native (c : Call) : Prog unit :=
  atomic (fun w => (tt, log_call c w)).

Definition Continue (controller : ICorDebugController) (fIsOutOfBand : BOOL) : Prog unit :=
  native (Call_Continue controller fIsOutOfBand).

Fixpoint for_each {A} (items : list A) (body : A -> Prog unit) : Prog unit :=
  match items with
  | [] => Ret tt
  | x :: rest => body x ;; for_each rest body
  end.

(** ** Breakpoints and steppers *)

Definition DisableAllBreakpointsAndSteppersInAppDomain (pAppDomain : ICorDebugAppDomain)
  : Prog HRESULT :=
  match appdomain_EnumerateBreakpoints pAppDomain with
  | COk breakpoints =>
      for_each breakpoints (fun pBreakpoint =>
        native (Call_Activate (breakpoint_id pBreakpoint) FALSE))
  | CErr _ => Ret tt
  end ;;
  native Call_DeleteAllBreakpoints ;;
  match appdomain_EnumerateSteppers pAppDomain with
  | COk steppers =>
      for_each steppers (fun pStepper =>
        native (Call_Deactivate (stepper_id pStepper)))
  | CErr _ => Ret tt
  end ;;
  Ret S_OK.

Definition DisableAllBreakpointsAndSteppers (pProcess : ICorDebugProcess) : Prog HRESULT :=
  match process_EnumerateAppDomains pProcess with
  | CErr Status => Ret Status
  | COk domains =>
      for_each domains (fun pDomain =>
        DisableAllBreakpointsAndSteppersInAppDomain pDomain ;; Ret tt) ;;
      Ret S_OK
  end.

(** ** Last stopped thread *)

Definition SetLastStoppedThread (pThread : ICorDebugThread) : Prog unit :=
  let threadId := out_param 0 (thread_GetID pThread) in
  atomic (fun w => (tt, set_g_lastStoppedThreadId (Int.i32 threadId) w)).

Definition GetLastStoppedThreadId : Prog Z :=
  atomic (fun w => (g_lastStoppedThreadId w, w)).

(** ** Exception information *)

(** [GetExceptionInfo]: its status and the two strings afterwards (both
    empty before the call). *)
Definition GetExceptionInfo (pThread : ICorDebugThread) : HRESULT * string * string :=
  match thread_GetActiveFrame pThread with
  | CErr Status => (Status, "", "")
  | COk pFrame =>
  match thread_GetCurrentException pThread with
  | CErr Status => (Status, "", "")
  | COk pExceptionValue =>
  let excType := GetTypeOfValue env pExceptionValue in
  match frame_GetFunction pFrame with
  | CErr Status => (Status, excType, "")
  | COk pFunc =>
  match function_GetModule pFunc with
  | CErr Status => (Status, excType, "")
  | COk pModule =>
  match module_GetMetaDataInterface pModule with
  | CErr Status => (Status, excType, "")
  | COk pMDUnknown =>
  match unknown_QueryInterface pMDUnknown with
  | CErr Status => (Status, excType, "")
  | COk pMDImport =>
  match metadata_GetScopeProps pMDImport with
  | CErr Status => (Status, excType, "")
  | COk mdName => (S_OK, excType, mdName)
  end end end end end end end.

(** ** The event dispatcher: [class ManagedCallback] *)

Definition quoted (value : string) : string := (Fmt.dq ++ value ++ Fmt.dq)%string.

Definition ManagedCallback_HandleEvent (controller : ICorDebugController)
    (eventName : string) : Prog unit :=
  out_printf ("=message,text=" ++ quoted ("event received " ++ Fmt.s eventName) ++ Fmt.nl) ;;
  Continue controller 0.

(** The frame text of the three stop handlers. *)
Definition frame_location (pThread : ICorDebugThread) : string :=
  match thread_GetActiveFrame pThread with
  | COk pFrame => PrintFrameLocation env pFrame
  | CErr _ => ""
  end.

Definition ManagedCallback_Breakpoint (pAppDomain : ICorDebugAppDomain)
    (pThread : ICorDebugThread) (pBreakpoint : ICorDebugBreakpoint) : Prog HRESULT :=
  let id := out_param 0 (FindCurrentBreakpointId env pThread) in
  let output := frame_location pThread in
  let threadId := out_param 0 (thread_GetID pThread) in
  out_printf ("*stopped,reason=" ++ quoted "breakpoint-hit"
              ++ ",thread-id=" ++ quoted (Fmt.i (Int.i32 threadId))
              ++ ",stopped-threads=" ++ quoted "all"
              ++ ",bkptno=" ++ quoted (Fmt.u (Int.u32 id))
              ++ ",frame={" ++ Fmt.s output ++ "}" ++ Fmt.nl) ;;
  SetLastStoppedThread pThread ;;
  Ret S_OK.

Definition ManagedCallback_StepComplete (pAppDomain : ICorDebugAppDomain)
    (pThread : ICorDebugThread) (pStepper : ICorDebugStepper) (reason : Z)
  : Prog HRESULT :=
  let output := frame_location pThread in
  let threadId := out_param 0 (thread_GetID pThread) in
  out_printf ("*stopped,reason=" ++ quoted "end-stepping-range"
              ++ ",thread-id=" ++ quoted (Fmt.i (Int.i32 threadId))
              ++ ",stopped-threads=" ++ quoted "all"
              ++ "," ++ Fmt.s output ++ Fmt.nl) ;;
  SetLastStoppedThread pThread ;;
  Ret S_OK.

Definition ManagedCallback_Break (pAppDomain : ICorDebugAppDomain)
    (thread : ICorDebugThread) : Prog HRESULT :=
  ManagedCallback_HandleEvent (AppDomain_controller pAppDomain) "Break" ;; Ret S_OK.

Definition ManagedCallback_Exception (pAppDomain : ICorDebugAppDomain)
    (pThread : ICorDebugThread) (unhandled : BOOL) : Prog HRESULT :=
  let output := frame_location pThread in
  let threadId := out_param 0 (thread_GetID pThread) in
  SetLastStoppedThread pThread ;;
  (if truth unhandled then
     out_printf ("*stopped,reason=" ++ quoted "exception-received"
                 ++ ",exception-stage="
                 ++ quoted (Fmt.s (if truth unhandled then "unhandled" else "handled"))
                 ++ ",thread-id=" ++ quoted (Fmt.i (Int.i32 threadId))
                 ++ ",stopped-threads=" ++ quoted "all"
                 ++ "," ++ Fmt.s output ++ Fmt.nl)
   else
     let '(_, excType, excModule) := GetExceptionInfo pThread in
     out_printf ("=message,text="
                 ++ quoted ("Exception thrown: '" ++ Fmt.s excType ++ "' in "
                            ++ Fmt.s excModule ++ "\n")
                 ++ ",send-to=" ++ quoted "output-window"
                 ++ ",source=" ++ quoted "target-exception" ++ Fmt.nl) ;;
     Continue (AppDomain_controller pAppDomain) 0) ;;
  Ret S_OK.

Definition ManagedCallback_EvalComplete (pAppDomain : ICorDebugAppDomain)
    (pThread : ICorDebugThread) (pEval : ICorDebugEval) : Prog HRESULT :=
  native Call_NotifyEvalComplete ;; Ret S_OK.

Definition ManagedCallback_EvalException (pAppDomain : ICorDebugAppDomain)
    (pThread : ICorDebugThread) (pEval : ICorDebugEval) : Prog HRESULT :=
  native Call_NotifyEvalComplete ;; Ret S_OK.

Definition ManagedCallback_CreateProcess (pProcess : ICorDebugProcess) : Prog HRESULT :=
  ProcessCreated pProcess ;;
  Continue (Process_controller pProcess) 0 ;;
  Ret S_OK.

Definition ManagedCallback_ExitProcess (pProcess : ICorDebugProcess) : Prog HRESULT :=
  out_printf ("*stopped,reason=" ++ quoted "exited"
              ++ ",exit-code=" ++ quoted (Fmt.i 0) ++ Fmt.nl) ;;
  native Call_NotifyEvalComplete ;;
  NotifyProcessExited ;;
  Ret S_OK.

Definition ManagedCallback_CreateThread (pAppDomain : ICorDebugAppDomain)
    (thread : ICorDebugThread) : Prog HRESULT :=
  let threadId := out_param 0 (thread_GetID thread) in
  out_printf ("=thread-created,id=" ++ quoted (Fmt.i (Int.i32 threadId)) ++ Fmt.nl) ;;
  Continue (AppDomain_controller pAppDomain) 0 ;;
  Ret S_OK.

Definition ManagedCallback_ExitThread (pAppDomain : ICorDebugAppDomain)
    (thread : ICorDebugThread) : Prog HRESULT :=
  ManagedCallback_HandleEvent (AppDomain_controller pAppDomain) "ExitThread" ;; Ret S_OK.

(** An exception that [EscapeMIValue] threw would leave the handler. *)
Definition ManagedCallback_LoadModule (pAppDomain : ICorDebugAppDomain)
    (pModule : ICorDebugModule) : Prog HRESULT :=
  let loaded := TryLoadModuleSymbols env pModule in
  let id := symbols_id loaded in
  let name := symbols_name loaded in
  let symbolsLoaded := symbols_symbolsLoaded loaded in
  let baseAddress := symbols_baseAddress loaded in
  let size := symbols_size loaded in
  match EscapeMIValue name with
  | None => Fault
  | Some escapedName =>
      let ss := ("id=" ++ Fmt.dq ++ "{" ++ id ++ "}" ++ Fmt.dq ++ ","
                 ++ "target-name=" ++ Fmt.dq ++ escapedName ++ Fmt.dq ++ ","
                 ++ "host-name=" ++ Fmt.dq ++ escapedName ++ Fmt.dq ++ ","
                 ++ "symbols-loaded=" ++ Fmt.dq ++ Fmt.b symbolsLoaded ++ Fmt.dq ++ ","
                 ++ "base-address=" ++ Fmt.dq ++ "0x" ++ Fmt.hex (Int.u64 baseAddress)
                 ++ Fmt.dq ++ ","
                 ++ "size=" ++ Fmt.dq ++ Fmt.u (Int.u32 size) ++ Fmt.dq)%string in
      out_printf ("=library-loaded," ++ Fmt.s ss ++ Fmt.nl) ;;
      (if symbolsLoaded
       then native (Call_TryResolveBreakpointsForModule (module_id pModule))
       else Ret tt) ;;
      Continue (AppDomain_controller pAppDomain) 0 ;;
      Ret S_OK
  end.

Definition ManagedCallback_UnloadModule (pAppDomain : ICorDebugAppDomain)
    (pModule : ICorDebugModule) : Prog HRESULT :=
  ManagedCallback_HandleEvent (AppDomain_controller pAppDomain) "UnloadModule" ;; Ret S_OK.

Definition ManagedCallback_LoadClass (pAppDomain : ICorDebugAppDomain)
    (c : ICorDebugClass) : Prog HRESULT :=
  ManagedCallback_HandleEvent (AppDomain_controller pAppDomain) "LoadClass" ;; Ret S_OK.

Definition ManagedCallback_UnloadClass (pAppDomain : ICorDebugAppDomain)
    (c : ICorDebugClass) : Prog HRESULT :=
  ManagedCallback_HandleEvent (AppDomain_controller pAppDomain) "UnloadClass" ;; Ret S_OK.

(** [printf] straight to the standard output. *)
Definition ManagedCallback_DebuggerError (pProcess : ICorDebugProcess)
    (errorHR : HRESULT) (errorCode : Z) : Prog HRESULT :=
  atomic (fun w => (tt, write_stdout ("DebuggerError" ++ Fmt.nl) w)) ;; Ret S_OK.

Definition ManagedCallback_LogMessage (pAppDomain : ICorDebugAppDomain)
    (pThread : ICorDebugThread) (lLevel : Z) (pLogSwitchName pMessage : string)
  : Prog HRESULT :=
  Continue (AppDomain_controller pAppDomain) 0 ;; Ret S_OK.

Definition ManagedCallback_LogSwitch (pAppDomain : ICorDebugAppDomain)
    (pThread : ICorDebugThread) (lLevel ulReason : Z) (pLogSwitchName pParentName : string)
  : Prog HRESULT :=
  Continue (AppDomain_controller pAppDomain) 0 ;; Ret S_OK.

Definition ManagedCallback_CreateAppDomain (pProcess : ICorDebugProcess)
    (pAppDomain : ICorDebugAppDomain) : Prog HRESULT :=
  Continue (Process_controller pProcess) 0 ;; Ret S_OK.

Definition ManagedCallback_ExitAppDomain (pProcess : ICorDebugProcess)
    (pAppDomain : ICorDebugAppDomain) : Prog HRESULT :=
  ManagedCallback_HandleEvent (AppDomain_controller pAppDomain) "ExitAppDomain" ;; Ret S_OK.

Definition ManagedCallback_LoadAssembly (pAppDomain : ICorDebugAppDomain)
    (pAssembly : ICorDebugAssembly) : Prog HRESULT :=
  Continue (AppDomain_controller pAppDomain) 0 ;; Ret S_OK.

(** [ICorDebugManagedCallback2::Exception]. *)
Definition ManagedCallback_Exception2 (pAppDomain : ICorDebugAppDomain)
    (pThread : ICorDebugThread) (pFrame : ICorDebugFrame) (nOffset : Z)
    (dwEventType dwFlags : Z) : Prog HRESULT :=
  Continue (AppDomain_controller pAppDomain) 0 ;; Ret S_OK.

(** The handlers whose body is [return S_OK]: [UnloadAssembly],
    [ControlCTrap], [NameChange], [UpdateModuleSymbols],
    [EditAndContinueRemap], [BreakpointSetError],
    [FunctionRemapOpportunity], [CreateConnection], [ChangeConnection],
    [DestroyConnection], [ExceptionUnwind], [FunctionRemapComplete],
    [MDANotification]. *)
Inductive Acknowledged :=
| UnloadAssembly | ControlCTrap | NameChange | UpdateModuleSymbols
| EditAndContinueRemap | BreakpointSetError | FunctionRemapOpportunity
| CreateConnection | ChangeConnection | DestroyConnection
| ExceptionUnwind | FunctionRemapComplete | MDANotification.

Definition ManagedCallback_acknowledge (which : Acknowledged) : Prog HRESULT :=
  Ret S_OK.

(** A notification of the runtime: the handler it enters and its arguments. *)
Inductive Notification :=
| N_Breakpoint (pAppDomain : ICorDebugAppDomain) (pThread : ICorDebugThread)
    (pBreakpoint : ICorDebugBreakpoint)
| N_StepComplete (pAppDomain : ICorDebugAppDomain) (pThread : ICorDebugThread)
    (pStepper : ICorDebugStepper) (reason : Z)
| N_Break (pAppDomain : ICorDebugAppDomain) (thread : ICorDebugThread)
| N_Exception (pAppDomain : ICorDebugAppDomain) (pThread : ICorDebugThread)
    (unhandled : BOOL)
| N_EvalComplete (pAppDomain : ICorDebugAppDomain) (pThread : ICorDebugThread)
    (pEval : ICorDebugEval)
| N_EvalException (pAppDomain : ICorDebugAppDomain) (pThread : ICorDebugThread)
    (pEval : ICorDebugEval)
| N_CreateProcess (pProcess : ICorDebugProcess)
| N_ExitProcess (pProcess : ICorDebugProcess)
| N_CreateThread (pAppDomain : ICorDebugAppDomain) (thread : ICorDebugThread)
| N_ExitThread (pAppDomain : ICorDebugAppDomain) (thread : ICorDebugThread)
| N_LoadModule (pAppDomain : ICorDebugAppDomain) (pModule : ICorDebugModule)
| N_UnloadModule (pAppDomain : ICorDebugAppDomain) (pModule : ICorDebugModule)
| N_LoadClass (pAppDomain : ICorDebugAppDomain) (c : ICorDebugClass)
| N_UnloadClass (pAppDomain : ICorDebugAppDomain) (c : ICorDebugClass)
| N_DebuggerError (pProcess : ICorDebugProcess) (errorHR : HRESULT) (errorCode : Z)
| N_LogMessage (pAppDomain : ICorDebugAppDomain) (pThread : ICorDebugThread)
    (lLevel : Z) (pLogSwitchName pMessage : string)
| N_LogSwitch (pAppDomain : ICorDebugAppDomain) (pThread : ICorDebugThread)
    (lLevel ulReason : Z) (pLogSwitchName pParentName : string)
| N_CreateAppDomain (pProcess : ICorDebugProcess) (pAppDomain : ICorDebugAppDomain)
| N_ExitAppDomain (pProcess : ICorDebugProcess) (pAppDomain : ICorDebugAppDomain)
| N_LoadAssembly (pAppDomain : ICorDebugAppDomain) (pAssembly : ICorDebugAssembly)
| N_Exception2 (pAppDomain : ICorDebugAppDomain) (pThread : ICorDebugThread)
    (pFrame : ICorDebugFrame) (nOffset dwEventType dwFlags : Z)
| N_Acknowledged (which : Acknowledged).

Definition dispatch (n : Notification) : Prog HRESULT :=
  match n with
  | N_Breakpoint d t b => ManagedCallback_Breakpoint d t b
  | N_StepComplete d t s r => ManagedCallback_StepComplete d t s r
  | N_Break d t => ManagedCallback_Break d t
  | N_Exception d t u => ManagedCallback_Exception d t u
  | N_EvalComplete d t e => ManagedCallback_EvalComplete d t e
  | N_EvalException d t e => ManagedCallback_EvalException d t e
  | N_CreateProcess p => ManagedCallback_CreateProcess p
  | N_ExitProcess p => ManagedCallback_ExitProcess p
  | N_CreateThread d t => ManagedCallback_CreateThread d t
  | N_ExitThread d t => ManagedCallback_ExitThread d t
  | N_LoadModule d m => ManagedCallback_LoadModule d m
  | N_UnloadModule d m => ManagedCallback_UnloadModule d m
  | N_LoadClass d c => ManagedCallback_LoadClass d c
  | N_UnloadClass d c => ManagedCallback_UnloadClass d c
  | N_DebuggerError p hr code => ManagedCallback_DebuggerError p hr code
  | N_LogMessage d t l s m => ManagedCallback_LogMessage d t l s m
  | N_LogSwitch d t l r s p => ManagedCallback_LogSwitch d t l r s p
  | N_CreateAppDomain p d => ManagedCallback_CreateAppDomain p d
  | N_ExitAppDomain p d => ManagedCallback_ExitAppDomain p d
  | N_LoadAssembly d a => ManagedCallback_LoadAssembly d a
  | N_Exception2 d t f o ty fl => ManagedCallback_Exception2 d t f o ty fl
  | N_Acknowledged which => ManagedCallback_acknowledge which
  end.

(** ** The facade: [class Debugger] *)

Definition idle : Debugger := {| m_pProcess := None; m_pDebug := None |}.

(** The operations of the facade take the fields of the object and hand
    them back next to their status. *)

(** [m_pProcess->Stop(0)]. *)
Definition Stop (pProcess : ICorDebugProcess) (dwTimeout : Z) : Prog HRESULT :=
  native (Call_Stop (process_id pProcess) dwTimeout) ;; Ret (process_Stop pProcess).

Definition DetachFromProcess (this : Debugger) : Prog (HRESULT * Debugger) :=
  match m_pProcess this, m_pDebug this with
  | Some pProcess, Some pDebug =>
      stopped <- Stop pProcess 0 ;;
      (if SUCCEEDED stopped then
         DisableAllBreakpointsAndSteppers pProcess ;;
         native (Call_Detach (process_id pProcess))
       else Ret tt) ;;
      native Call_CleanupAllModules ;;
      native (Call_Release (process_id pProcess)) ;;
      let this := {| m_pProcess := None; m_pDebug := m_pDebug this |} in
      native (Call_CorDebugTerminate (cordebug_id pDebug)) ;;
      let this := {| m_pProcess := m_pProcess this; m_pDebug := None |} in
      Ret (S_OK, this)
  | _, _ => Ret (E_FAIL, this)
  end.

Definition TerminateProcess (this : Debugger) : Prog (HRESULT * Debugger) :=
  match m_pProcess this, m_pDebug this with
  | Some pProcess, Some pDebug =>
      stopped <- Stop pProcess 0 ;;
      (if SUCCEEDED stopped then
         DisableAllBreakpointsAndSteppers pProcess ;; Ret tt
       else Ret tt) ;;
      native Call_CleanupAllModules ;;
      native (Call_Terminate (process_id pProcess) 0) ;;
      WaitProcessExited ;;
      native (Call_Release (process_id pProcess)) ;;
      let this := {| m_pProcess := None; m_pDebug := m_pDebug this |} in
      native (Call_CorDebugTerminate (cordebug_id pDebug)) ;;
      let this := {| m_pProcess := m_pProcess this; m_pDebug := None |} in
      Ret (S_OK, this)
  | _, _ => Ret (E_FAIL, this)
  end.

(** The [return] statement through which [AttachToProcess] leaves. *)
Inductive AttachStatus :=
| Attach_S_OK
| Attach_AlreadyAttached
| Attach_RuntimeNotFound
| Attach_Failed (Status : HRESULT).

Definition HRESULT_of (s : AttachStatus) : HRESULT :=
  match s with
  | Attach_S_OK => S_OK
  | Attach_AlreadyAttached => E_FAIL
  | Attach_RuntimeNotFound => E_INVALIDARG
  | Attach_Failed Status => Status
  end.

Definition attached_flag (this : Debugger) : bool :=
  match m_pProcess this, m_pDebug this with
  | None, None => false
  | _, _ => true
  end.

(** [AttachToProcess] from [GetCoreCLRPath] on.  [szModuleName] is the
    path as a callee reads it from the wide copy; the references that
    [ToRelease] drops at the end of the scope are not logged.  [pid] is an
    [int]; [CreateVersionStringFromModule] and [DebugActiveProcess] take a
    [DWORD], so they get it converted. *)
Definition AttachToProcess_connect (this : Debugger) (pid : Z)
  : Prog (AttachStatus * Debugger) :=
  let coreclrPath := GetCoreCLRPath env pid in
  if (StdString.size coreclrPath =? 0)%nat then Ret (Attach_RuntimeNotFound, this) else
  native (Call_SetCoreCLRPath coreclrPath) ;;
  let szModuleName := Fmt.s coreclrPath in
  match CreateVersionStringFromModule env (Int.u32 pid) szModuleName with
  | CErr Status => Ret (Attach_Failed Status, this)
  | COk pBuffer =>
  match CreateDebuggingInterfaceFromVersionEx env 4 pBuffer with
  | CErr Status => Ret (Attach_Failed Status, this)
  | COk pCordb =>
  match cordb_QueryInterface pCordb with
  | CErr Status => Ret (Attach_Failed Status, this)
  | COk pCorDebug =>
      native (Call_Initialize (cordebug_id pCorDebug)) ;;
      if FAILED (cordebug_Initialize pCorDebug)
      then Ret (Attach_Failed (cordebug_Initialize pCorDebug), this) else
      native (Call_SetManagedHandler (cordebug_id pCorDebug)) ;;
      if FAILED (cordebug_SetManagedHandler pCorDebug) then
        native (Call_CorDebugTerminate (cordebug_id pCorDebug)) ;;
        Ret (Attach_Failed (cordebug_SetManagedHandler pCorDebug), this)
      else
      native (Call_DebugActiveProcess (cordebug_id pCorDebug) (Int.u32 pid)) ;;
      match cordebug_DebugActiveProcess pCorDebug (Int.u32 pid) with
      | CErr Status =>
          native (Call_CorDebugTerminate (cordebug_id pCorDebug)) ;;
          Ret (Attach_Failed Status, this)
      | COk pProcess =>
          Ret (Attach_S_OK, {| m_pProcess := Some pProcess; m_pDebug := Some pCorDebug |})
      end
  end end end.

(** The test of [g_process] is one critical section of [g_processMutex],
    taken to end at the explicit [unlock] (the second unlock, by the
    [lock_guard], is left out).  The status of the inner [TerminateProcess]
    is dropped. *)
Definition AttachToProcess (this : Debugger) (pid : Z) : Prog (AttachStatus * Debugger) :=
  if attached_flag this then
    registered <- atomic (fun w => (g_process w, w)) ;;
    match registered with
    | Some _ => Ret (Attach_AlreadyAttached, this)
    | None =>
        terminated <- TerminateProcess this ;;
        AttachToProcess_connect (snd terminated) pid
    end
  else AttachToProcess_connect this pid.

End Core.

(** ** The two threads

    The command thread runs a program of the facade; the runtime delivers
    notifications on a thread of its own, one handler at a time.  For one
    debugging session the runtime sends [CreateProcess] first and
    [ExitProcess] last. *)

Inductive Session := NotStarted | Running | Exited.

Definition deliver (s : Session) (n : Notification) : option Session :=
  match s, n with
  | NotStarted, N_CreateProcess _ => Some Running
  | Running, N_CreateProcess _ => None
  | Running, N_ExitProcess _ => Some Exited
  | Running, _ => Some Running
  | _, _ => None
  end.

Record Config (A : Type) := {
  cmd : Prog A;
  handler : option (Prog HRESULT);
  session : Session;
  world : World
}.
Arguments cmd {A} c.
Arguments handler {A} c.
Arguments session {A} c.
Arguments world {A} c.

(** One step of one thread. *)
Inductive thread_step {A} : Prog A -> World -> Prog A -> World -> Prop :=
| thread_atom upd next w :
    thread_step (Atom upd next) w (next w) (upd w)
| thread_wait cond k w :
    cond w = true -> thread_step (Wait cond k) w k w.

Section Threads.

Variable env : Collaborators.

Inductive step {A} : Config A -> Config A -> Prop :=
| step_command c1 h s w c2 w' :
    thread_step c1 w c2 w' ->
    step {| cmd := c1; handler := h; session := s; world := w |}
         {| cmd := c2; handler := h; session := s; world := w' |}
| step_deliver c s w n s' :
    deliver s n = Some s' ->
    step {| cmd := c; handler := None; session := s; world := w |}
         {| cmd := c; handler := Some (dispatch env n); session := s'; world := w |}
| step_handler c h1 s w h2 w' :
    thread_step h1 w h2 w' ->
    step {| cmd := c; handler := Some h1; session := s; world := w |}
         {| cmd := c; handler := Some h2; session := s; world := w' |}
| step_handled c hr s w :
    step {| cmd := c; handler := Some (Ret hr); session := s; world := w |}
         {| cmd := c; handler := None; session := s; world := w |}.

Inductive reaches {A} : Config A -> Config A -> Prop :=
| reaches_here c : reaches c c
| reaches_step c1 c2 c3 : reaches c1 c2 -> step c2 c3 -> reaches c1 c3.

End Threads.

(** ** Runs and call logs *)

(** The state in which a run ends, however it ends. *)
Definition final {A} (o : Outcome A) : World :=
  match o with
  | Returned _ w => w
  | Blocked w => w
  | Faulted w => w
  end.

(** The state after the calls [cs] were issued one after the other. *)
Definition log_calls (cs : list Call) (w : World) : World :=
  {| g_process := g_process w; g_lastStoppedThreadId := g_lastStoppedThreadId w;
     stdout := stdout w; calls := calls w ++ cs |}.

(** The calls that quiesce one app domain, in the order of the source. *)
Definition appdomain_calls (pAppDomain : ICorDebugAppDomain) : list Call :=
  (match appdomain_EnumerateBreakpoints pAppDomain with
   | COk breakpoints => List.map (fun b => Call_Activate (breakpoint_id b) FALSE) breakpoints
   | CErr _ => []
   end
   ++ [Call_DeleteAllBreakpoints]
   ++ match appdomain_EnumerateSteppers pAppDomain with
      | COk steppers => List.map (fun s => Call_Deactivate (stepper_id s)) steppers
      | CErr _ => []
      end)%list.

Definition process_calls (pProcess : ICorDebugProcess) : list Call :=
  match process_EnumerateAppDomains pProcess with
  | COk domains => List.flat_map appdomain_calls domains
  | CErr _ => []
  end.

(** The calls of [DetachFromProcess] on an attached facade. *)
Definition detach_calls (pProcess : ICorDebugProcess) (pDebug : ICorDebug) : list Call :=
  ([Call_Stop (process_id pProcess) 0]
   ++ (if SUCCEEDED (process_Stop pProcess)
       then process_calls pProcess ++ [Call_Detach (process_id pProcess)]
       else [])
   ++ [Call_CleanupAllModules;
       Call_Release (process_id pProcess);
       Call_CorDebugTerminate (cordebug_id pDebug)])%list.

(** The calls of [TerminateProcess] before and after its wait. *)
Definition terminate_calls (pProcess : ICorDebugProcess) (pDebug : ICorDebug) : list Call :=
  ([Call_Stop (process_id pProcess) 0]
   ++ (if SUCCEEDED (process_Stop pProcess) then process_calls pProcess else [])
   ++ [Call_CleanupAllModules;
       Call_Terminate (process_id pProcess) 0;
       Call_Release (process_id pProcess);
       Call_CorDebugTerminate (cordebug_id pDebug)])%list.

(** ** What a program does to the registry *)

(** [quiet R m]: no step of [m] changes [g_process], and what [m] returns
    satisfies [R]. *)
Inductive quiet {A} (R : A -> Prop) : Prog A -> Prop :=
| quiet_ret a : R a -> quiet R (Ret a)
| quiet_atom upd next :
    (forall w, g_process (upd w) = g_process w) ->
    (forall w, quiet R (next w)) ->
    quiet R (Atom upd next)
| quiet_wait cond k : quiet R k -> quiet R (Wait cond k)
| quiet_fault : quiet R Fault.

Definition anything {A} (a : A) : Prop := True.

(** [awaits_exit R m]: [m] leaves [g_process] alone and, before it returns,
    passes a wait that lets it through only when the registry is empty;
    from there on it is [quiet R]. *)
Inductive awaits_exit {A} (R : A -> Prop) : Prog A -> Prop :=
| awaits_atom upd next :
    (forall w, g_process (upd w) = g_process w) ->
    (forall w, awaits_exit R (next w)) ->
    awaits_exit R (Atom upd next)
| awaits_here cond k :
    (forall w, cond w = true -> g_process w = None) ->
    quiet R k ->
    awaits_exit R (Wait cond k)
| awaits_later cond k : awaits_exit R k -> awaits_exit R (Wait cond k)
| awaits_fault : awaits_exit R Fault.

(** [unregisters m]: [m] leaves [g_process] alone up to a step that clears
    it, after which only [return S_OK] is left when a process was there. *)
Inductive unregisters : Prog HRESULT -> Prop :=
| unregisters_later upd next :
    (forall w, g_process (upd w) = g_process w) ->
    (forall w, unregisters (next w)) ->
    unregisters (Atom upd next)
| unregisters_now upd next :
    (forall w, g_process (upd w) = None) ->
    (forall w, g_process w <> None -> next w = Ret S_OK) ->
    unregisters (Atom upd next).

(** The exit notification has run: the runtime delivered it, and its
    handler is through with the registry, with nothing left but to return. *)
Definition exit_notified {A} (c : Config A) : Prop :=
  session c = Exited /\ (handler c = None \/ handler c = Some (Ret S_OK)).

(** What holds of the notification thread and the registry while the
    process of a session is registered and after it has exited. *)
Definition registry_invariant {A} (c : Config A) : Prop :=
  match session c with
  | NotStarted => False
  | Running =>
      g_process (world c) <> None
      /\ (handler c = None \/ exists h, handler c = Some h /\ quiet anything h)
  | Exited =>
      (g_process (world c) <> None /\ exists h, handler c = Some h /\ unregisters h)
      \/ (g_process (world c) = None
          /\ (handler c = None \/ handler c = Some (Ret S_OK)))
  end.

(** Where the command thread is in [TerminateProcess]. *)
Definition command_invariant {A} (R : A -> Prop) (c : Config A) : Prop :=
  awaits_exit R (cmd c) \/ (quiet R (cmd c) /\ g_process (world c) = None).

(** The calls of [TerminateProcess] up to its wait. *)
Definition kill_calls (pProcess : ICorDebugProcess) : list Call :=
  ([Call_Stop (process_id pProcess) 0]
   ++ (if SUCCEEDED (process_Stop pProcess) then process_calls pProcess else [])
   ++ [Call_CleanupAllModules; Call_Terminate (process_id pProcess) 0])%list.

(** ** A concrete session

    One debuggee with one thread, one app domain and one breakpoint, on a
    machine with pages of 4096 bytes and without a managed runtime for the
    process ids that are asked for. *)

Module Demo.

Definition frame : ICorDebugFrame :=
  {| frame_id := 1; frame_GetFunction := CErr E_FAIL |}.

Definition thread : ICorDebugThread :=
  {| thread_GetID := COk 7;
     thread_GetActiveFrame := COk frame;
     thread_GetCurrentException := CErr E_FAIL |}.

Definition breakpoint : ICorDebugBreakpoint := {| breakpoint_id := 3 |}.

Definition appdomain : ICorDebugAppDomain :=
  {| appdomain_id := 1;
     appdomain_EnumerateBreakpoints := COk [breakpoint];
     appdomain_EnumerateSteppers := COk [] |}.

Definition module : ICorDebugModule :=
  {| module_id := 1; module_GetMetaDataInterface := CErr E_FAIL |}.

(** A debuggee whose first read fails, for whatever reason, and whose
    later reads deliver all that is asked for. *)
Definition ReadMemory (earlier : nat) (address size : Z) : ReadAnswer :=
  match earlier with
  | O => {| read_status := E_FAIL; read_stored := None |}
  | S _ => {| read_status := S_OK; read_stored := Some size |}
  end.

Definition process : ICorDebugProcess :=
  {| process_id := 1;
     process_Stop := S_OK;
     process_EnumerateAppDomains := COk [appdomain];
     process_ReadMemory := ReadMemory |}.

(** The same debuggee when it refuses to stop. *)
Definition running_process : ICorDebugProcess :=
  {| process_id := 1;
     process_Stop := E_FAIL;
     process_EnumerateAppDomains := COk [appdomain];
     process_ReadMemory := ReadMemory |}.

Definition cordebug : ICorDebug :=
  {| cordebug_id := 1;
     cordebug_Initialize := S_OK;
     cordebug_SetManagedHandler := S_OK;
     cordebug_DebugActiveProcess := fun _ => COk process |}.

Definition env : Collaborators :=
  {| OSPageSize := 4096;
     FindCurrentBreakpointId := fun _ => COk 3;
     PrintFrameLocation := fun _ => "Program.Main() Line 10";
     TryLoadModuleSymbols := fun _ =>
       {| symbols_id := "0f1e";
          symbols_name := "a" ++ Fmt.dq ++ "b.dll";
          symbols_symbolsLoaded := true;
          symbols_baseAddress := 4096;
          symbols_size := 512 |};
     GetTypeOfValue := fun _ => "System.Exception";
     GetCoreCLRPath := fun _ => "";
     CreateVersionStringFromModule := fun _ _ => CErr E_FAIL;
     CreateDebuggingInterfaceFromVersionEx := fun _ _ => CErr E_FAIL |}.

Definition start : World :=
  {| g_process := None; g_lastStoppedThreadId := 0; stdout := ""; calls := [] |}.

Definition registered : World :=
  {| g_process := Some process; g_lastStoppedThreadId := 0; stdout := ""; calls := [] |}.

Definition registered_running : World :=
  {| g_process := Some running_process; g_lastStoppedThreadId := 0;
     stdout := ""; calls := [] |}.

Definition attached : Debugger :=
  {| m_pProcess := Some process; m_pDebug := Some cordebug |}.

Definition attached_running : Debugger :=
  {| m_pProcess := Some running_process; m_pDebug := Some cordebug |}.

(** The command thread at the call of [TerminateProcess], and at its
    return in the run where the runtime delivers the exit while the
    command thread waits. *)
Definition terminating : Config (HRESULT * Debugger) :=
  {| cmd := TerminateProcess attached; handler := None;
     session := Running; world := registered |}.

Definition terminated : Config (HRESULT * Debugger) :=
  {| cmd := Ret (S_OK, idle); handler := None; session := Exited;
     world :=
       {| g_process := None;
          g_lastStoppedThreadId := 0;
          stdout := "*stopped,reason=" ++ String Chr.DQ "exited" ++ String Chr.DQ
                    ",exit-code=" ++ String Chr.DQ "0" ++ String Chr.DQ (String Chr.LF "");
          calls := [Call_Stop 1 0; Call_Activate 3 FALSE; Call_DeleteAllBreakpoints;
                    Call_CleanupAllModules; Call_Terminate 1 0;
                    Call_NotifyEvalComplete; Call_Release 1;
                    Call_Release 1; Call_CorDebugTerminate 1] |} |}.

End Demo.

(** ** Steps that stay within a relation

    [within rel m]: every step of [m] takes a state to one that [rel]
    relates to it.  With [rel] an equality of one field this says that
    the program leaves the field alone; with [rel] a prefix order it says
    that the program only appends. *)
Inductive within {A} (rel : World -> World -> Prop) : Prog A -> Prop :=
| within_ret a : within rel (Ret a)
| within_atom upd next :
    (forall w, rel w (upd w)) ->
    (forall w, within rel (next w)) ->
    within rel (Atom upd next)
| within_wait cond k : within rel k -> within rel (Wait cond k)
| within_fault : within rel Fault.

(** The last stopped thread is the same. *)
Definition same_thread (w w' : World) : Prop :=
  g_lastStoppedThreadId w' = g_lastStoppedThreadId w.

(** The registry is the same. *)
Definition same_registry (w w' : World) : Prop :=
  g_process w' = g_process w.

(** A text made of whole lines: nothing, or something that ends in a
    newline. *)
Definition whole_lines (text : string) : Prop :=
  text = "" \/ exists body, text = (body ++ Fmt.nl)%string.

(** The output and the call log have only grown, the output by whole
    lines. *)
Definition only_appended (w w' : World) : Prop :=
  (exists text, stdout w' = (stdout w ++ text)%string /\ whole_lines text)
  /\ (exists cs, calls w' = (calls w ++ cs)%list).

(** [occurs c s]: the character [c] is in [s]. *)
Fixpoint occurs (c : ascii) (s : string) : bool :=
  match s with
  | EmptyString => false
  | String a s' => Ascii.eqb a c || occurs c s'
  end.

(** How many characters of [s] are in the escape set. *)
Fixpoint escapes (s : string) : nat :=
  match s with
  | EmptyString => O
  | String c s' => ((if in_escape_set c then 1 else 0) + escapes s')%nat
  end.

(** One line: a body without a newline, and the newline. *)
Definition one_line (text : string) : Prop :=
  exists body, text = (body ++ Fmt.nl)%string /\ occurs Chr.LF body = false.

(** A thread in [WaitProcessExited] next to the notification thread of
    the concrete session, and the state in which it has returned. *)
Module DemoWait.

Definition waiting : Config unit :=
  {| cmd := WaitProcessExited; handler := None;
     session := Running; world := Demo.registered |}.

Definition released : Config unit :=
  {| cmd := Ret tt; handler := None; session := Exited;
     world :=
       {| g_process := None;
          g_lastStoppedThreadId := 0;
          stdout := "*stopped,reason=" ++ String Chr.DQ "exited" ++ String Chr.DQ
                    ",exit-code=" ++ String Chr.DQ "0" ++ String Chr.DQ (String Chr.LF "");
          calls := [Call_NotifyEvalComplete; Call_Release 1] |} |}.

End DemoWait.

(** The control characters of the escape set: all of it but the quote and
    the backslash. *)
Definition is_control (c : ascii) : bool :=
  in_escape_set c && negb (Ascii.eqb c Chr.DQ) && negb (Ascii.eqb c Chr.BSL).

(** A reader of a quoted field of a protocol line, from after the opening
    quote: it takes a backslash together with the character that follows
    it, stops at the first quote that is not taken this way, and hands back
    the text before that quote and the text after it.  (The source has no
    such reader; this is how a front-end finds the end of a field.) *)
Fixpoint read_quoted (s : string) : option (string * string) :=
  match s with
  | EmptyString => None
  | String c rest =>
      if Ascii.eqb c Chr.DQ then Some (EmptyString, rest)
      else if Ascii.eqb c Chr.BSL then
        match rest with
        | EmptyString => None
        | String m rest' =>
            match read_quoted rest' with
            | Some (field, after) => Some (String c (String m field), after)
            | None => None
            end
        end
      else
        match read_quoted rest with
        | Some (field, after) => Some (String c field, after)
        | None => None
        end
  end.

(** The calls of one handler: no [Continue], or one, with [fIsOutOfBand]
    zero, as the last call. *)
Definition resumes_at_most_once_at_the_end (cs : list Call) : bool :=
  match List.rev cs with
  | Call_Continue _ fIsOutOfBand :: before =>
      (fIsOutOfBand =? 0) && List.forallb (fun c => negb (is_Continue c)) before
  | others => List.forallb (fun c => negb (is_Continue c)) others
  end.

(** The notifications after whose handler the debuggee is not resumed by
    the handler: the stops, the results of an evaluation, the exit, an
    error of the debugger and the notifications that are only
    acknowledged. *)
Definition left_suspended (n : Notification) : bool :=
  match n with
  | N_Breakpoint _ _ _ | N_StepComplete _ _ _ _ => true
  | N_Exception _ _ unhandled => truth unhandled
  | N_EvalComplete _ _ _ | N_EvalException _ _ _ => true
  | N_ExitProcess _ => true
  | N_DebuggerError _ _ _ => true
  | N_Acknowledged _ => true
  | _ => false
  end.

Definition is_DeleteAllBreakpoints (c : Call) : bool :=
  match c with Call_DeleteAllBreakpoints => true | _ => false end.

(** A call that takes a breakpoint or a stepper out of action. *)
Definition quiesces (c : Call) : Prop :=
  c = Call_DeleteAllBreakpoints
  \/ (exists breakpoint, c = Call_Activate breakpoint FALSE)
  \/ (exists stepper, c = Call_Deactivate stepper).

(** The two fields of the facade are set together and cleared together. *)
Definition both_or_neither (this : Debugger) : Prop :=
  m_pProcess this = None <-> m_pDebug this = None.

(** The machine of the concrete session with a managed runtime in the
    process that is asked for, and the facade's interface to it. *)
Module DemoAttach.

Definition cordb : ICordbUnknown := {| cordb_QueryInterface := COk Demo.cordebug |}.

Definition env : Collaborators :=
  {| OSPageSize := OSPageSize Demo.env;
     FindCurrentBreakpointId := FindCurrentBreakpointId Demo.env;
     PrintFrameLocation := PrintFrameLocation Demo.env;
     TryLoadModuleSymbols := TryLoadModuleSymbols Demo.env;
     GetTypeOfValue := GetTypeOfValue Demo.env;
     GetCoreCLRPath := fun _ => "/usr/share/dotnet/libcoreclr.so";
     CreateVersionStringFromModule := fun _ _ => COk "4.0";
     CreateDebuggingInterfaceFromVersionEx := fun _ _ => COk cordb |}.

End DemoAttach.

(** Where a thread that runs [m] alone from [w] comes to rest: at its
    return, at a wait that does not let it through, or at a fault. *)
Fixpoint rest {A} (m : Prog A) (w : World) : Prog A :=
  match m with
  | Ret a => Ret a
  | Atom upd next => rest (next w) (upd w)
  | Wait cond k => if cond w then rest k w else Wait cond k
  | Fault => Fault
  end.

(** ** The callback object

    [ManagedCallback] counts its references in [m_refCount], a [ULONG]
    that the constructor sets to one.  An object is [Some m_refCount]
    while it lives and [None] once [Release] has deleted it. *)

Module ManagedCallback.

Definition E_NOINTERFACE : HRESULT := Int.i32 0x80004002.

Inductive IID :=
| IID_ICorDebugManagedCallback
| IID_ICorDebugManagedCallback2
| IID_IUnknown
| IID_other (guid : Z).

(** [this] under the three static casts of [QueryInterface]. *)
Inductive Interface :=
| as_ICorDebugManagedCallback
| as_ICorDebugManagedCallback2
| as_IUnknown.

Definition Object := option Z.

Definition new : Object := Some 1.

(** [InterlockedIncrement] hands back the new count. *)
Definition AddRef (m_refCount : Z) : Z * Object :=
  let count := Int.u32 (m_refCount + 1) in (count, Some count).

Definition Release (m_refCount : Z) : Z * Object :=
  let count := Int.u32 (m_refCount - 1) in
  (count, if count =? 0 then None else Some count).

(** [ppInterface] is what [*ppInterface] holds before and after. *)
Definition QueryInterface (m_refCount : Z) (riid : IID) (ppInterface : option Interface)
  : HRESULT * option Interface * Object :=
  match riid with
  | IID_ICorDebugManagedCallback =>
      (S_OK, Some as_ICorDebugManagedCallback, snd (AddRef m_refCount))
  | IID_ICorDebugManagedCallback2 =>
      (S_OK, Some as_ICorDebugManagedCallback2, snd (AddRef m_refCount))
  | IID_IUnknown =>
      (S_OK, Some as_IUnknown, snd (AddRef m_refCount))
  | IID_other _ =>
      (E_NOINTERFACE, ppInterface, Some m_refCount)
  end.

(** What the holders of the object do with it, one call after the other.
    A call on a deleted object is undefined: there is no result. *)
Inductive Use :=
| Use_AddRef
| Use_Release
| Use_QueryInterface (riid : IID).

Definition use (u : Use) (m_refCount : Z) : Object :=
  match u with
  | Use_AddRef => snd (AddRef m_refCount)
  | Use_Release => snd (Release m_refCount)
  | Use_QueryInterface riid => snd (QueryInterface m_refCount riid None)
  end.

Fixpoint uses (us : list Use) (this : Object) : option Object :=
  match us with
  | [] => Some this
  | u :: rest =>
      match this with
      | Some m_refCount => uses rest (use u m_refCount)
      | None => None
      end
  end.

(** The references taken and the references given back in [us]. *)
Definition takes (u : Use) : bool :=
  match u with
  | Use_AddRef => true
  | Use_Release => false
  | Use_QueryInterface (IID_other _) => false
  | Use_QueryInterface _ => true
  end.

Definition gives (u : Use) : bool :=
  match u with Use_Release => true | _ => false end.

Definition taken (us : list Use) : Z := Z.of_nat (List.length (List.filter takes us)).
Definition given (us : list Use) : Z := Z.of_nat (List.length (List.filter gives us)).

End ManagedCallback.

(** The runtime asks for the callback interface, asks for one that the
    object does not have, takes a reference of its own, and gives back
    what it took. *)
Module DemoCallback.

Definition held : list ManagedCallback.Use :=
  [ManagedCallback.Use_QueryInterface ManagedCallback.IID_ICorDebugManagedCallback;
   ManagedCallback.Use_QueryInterface (ManagedCallback.IID_other 7);
   ManagedCallback.Use_AddRef;
   ManagedCallback.Use_Release;
   ManagedCallback.Use_Release].

End DemoCallback.

(** ** The entry point

    [strtoul] is the one of the C library: for a text it gives the number
    it read and the text from where it stopped reading ([err]).  [debugger]
    is the facade as its constructor built it; [AttachToProcess] takes the
    process id as an [int].  [main] is followed up to
    its [return] or up to the call of [CommandLoop], after whose return it
    returns [EXIT_SUCCESS]; the destructor of the facade is left out. *)

Module Main.

Definition EXIT_SUCCESS : Z := 0.
Definition EXIT_FAILURE : Z := 1.

(** What [print_help] writes to [stderr]. *)
Definition help : string :=
  (".NET Core debugger for Linux/macOS." ++ Fmt.nl
   ++ Fmt.nl
   ++ "Options:" ++ Fmt.nl
   ++ "--attach <process-id>                 Attach the debugger to the specified process id." ++ Fmt.nl
   ++ "--interpreter=mi                      Puts the debugger into MI mode." ++ Fmt.nl)%string.

(** The loop over the arguments: it runs to its end with a process id, or
    [main] returns from inside it with the text it wrote to [stderr]. *)
Inductive Options :=
| Options_pid (pidDebuggee : Z)
| Options_return (status : Z) (err : string).

Inductive Ending :=
| Return (status : Z) (err : string)
| CommandLoop (debugger : Debugger).

Section Libc.

Variable strtoul : string -> Z * string.

Fixpoint options (args : list string) (pidDebuggee : Z) : Options :=
  match args with
  | [] => Options_pid pidDebuggee
  | arg :: rest =>
      if String.eqb arg "--attach" then
        match rest with
        | [] => Options_return EXIT_FAILURE ("Error: Missing process id" ++ Fmt.nl)
        | value :: rest' =>
            let (number, err) := strtoul value in
            if negb (String.eqb err "")
            then Options_return EXIT_FAILURE ("Error: Missing process id" ++ Fmt.nl)
            else options rest' (Int.u32 number)
        end
      else if String.eqb arg "--interpreter=mi" then options rest pidDebuggee
      else if String.eqb arg "--help" then Options_return EXIT_SUCCESS help
      else Options_return EXIT_FAILURE ("Error: Unknown option " ++ Fmt.s arg ++ Fmt.nl)
  end.

(** [argv] holds [argc] texts, the name of the program first. *)
Definition main (env : Collaborators) (debugger : Debugger) (argv : list string) : Prog Ending :=
  if (List.length argv <=? 1)%nat then Ret (Return EXIT_FAILURE help) else
  match options (List.tl argv) 0 with
  | Options_return status err => Ret (Return status err)
  | Options_pid pidDebuggee =>
      if negb (pidDebuggee =? 0) then
        attached <- AttachToProcess env debugger (Int.i32 pidDebuggee) ;;
        let Status := HRESULT_of (fst attached) in
        if FAILED Status then
          Ret (Return EXIT_FAILURE
                 ("Error: 0x" ++ Fmt.hex (Int.u32 Status) ++ " Failed to attach to "
                  ++ Fmt.i (Int.i32 pidDebuggee) ++ Fmt.nl))
        else Ret (CommandLoop (snd attached))
      else Ret (CommandLoop debugger)
  end.

End Libc.

End Main.

(** A [strtoul] for texts of decimal digits: it reads the digits at the
    front and stops at the first other character. *)
Module DemoMain.

Definition digit (c : ascii) : option Z :=
  let n := Z.of_nat (nat_of_ascii c) in
  if (48 <=? n) && (n <=? 57) then Some (n - 48) else None.

Fixpoint read (text : string) (number : Z) : Z * string :=
  match text with
  | EmptyString => (number, EmptyString)
  | String c rest =>
      match digit c with
      | Some d => read rest (10 * number + d)
      | None => (number, text)
      end
  end.

Definition strtoul (text : string) : Z * string := read text 0.

End DemoMain.

(** Calls were issued, and nothing else has changed. *)
Definition only_called (w w' : World) : Prop :=
  exists cs, w' = log_calls cs w.

(** The thread of a notification whose handler reports a stop of the
    debuggee on a thread. *)
Definition stopped_thread (n : Notification) : option ICorDebugThread :=
  match n with
  | N_Breakpoint _ pThread _ => Some pThread
  | N_StepComplete _ pThread _ _ => Some pThread
  | N_Exception _ pThread unhandled => if truth unhandled then Some pThread else None
  | _ => None
  end.

(** * Properties *)

(** ** Escaping *)

Section Escaping.

Local Open Scope string_scope.
Local Open Scope nat_scope.

Lemma size_append pre s :
  StdString.size (pre ++ s) = StdString.size pre + StdString.size s.
Proof. induction pre as [|a pre IH]; simpl; [reflexivity | f_equal; exact IH]. Qed.

Lemma append_assoc (a b c : string) : ((a ++ b) ++ c = a ++ (b ++ c))%string.
Proof. induction a as [|x a IH]; simpl; [reflexivity | f_equal; exact IH]. Qed.

Lemma append_empty (a : string) : (a ++ "" = a)%string.
Proof. induction a as [|x a IH]; simpl; [reflexivity | f_equal; exact IH]. Qed.

Lemma at_append pre c rest :
  StdString.at_ (pre ++ String c rest) (StdString.size pre) = Some c.
Proof. induction pre as [|a pre IH]; simpl; [reflexivity | exact IH]. Qed.

Lemma insert_append pre s c :
  StdString.insert (pre ++ s) (StdString.size pre) 1 c = Some (pre ++ String c s).
Proof.
  induction pre as [|a pre IH]; simpl; [reflexivity|].
  fold (StdString.size pre). rewrite IH. reflexivity.
Qed.

Lemma assign_append pre a s c :
  StdString.assign (pre ++ String a s) (StdString.size pre) c = Some (pre ++ String c s).
Proof.
  induction pre as [|b pre IH]; simpl; [reflexivity|].
  fold (StdString.size pre). rewrite IH. reflexivity.
Qed.

(** With the index after [pre] and [rest] still to be visited, the loop ends
    by its test, on [pre] followed by the escaped [rest]; the fuel only has
    to cover the evaluations of the test. *)
Lemma EscapeMIValue_loop_escaped rest :
  forall pre fuel, StdString.size rest < fuel ->
    EscapeMIValue_loop fuel (StdString.size pre) (pre ++ rest) = Some (pre ++ escaped rest).
Proof.
  induction rest as [|c rest IH]; intros pre fuel Hfuel;
    (destruct fuel as [|fuel]; [inversion Hfuel|]); simpl in Hfuel |- *.
  - rewrite size_append. simpl. rewrite Nat.add_0_r, Nat.ltb_irrefl. reflexivity.
  - assert (Hlt : (StdString.size pre <? StdString.size (pre ++ String c rest)) = true).
    { apply Nat.ltb_lt. rewrite size_append. simpl. lia. }
    rewrite Hlt, at_append. unfold escape_char.
    destruct (escape_letter c) as [m|].
    + rewrite insert_append.
      replace (pre ++ String Chr.BSL (String c rest))%string
        with ((pre ++ String Chr.BSL "") ++ String c rest)%string
        by (rewrite append_assoc; reflexivity).
      replace (StdString.size pre + 1) with (StdString.size (pre ++ String Chr.BSL ""))
        by (rewrite size_append; reflexivity).
      rewrite assign_append.
      replace ((pre ++ String Chr.BSL "") ++ String m rest)%string
        with ((pre ++ String Chr.BSL (String m "")) ++ rest)%string
        by (rewrite !append_assoc; reflexivity).
      replace (StdString.size (pre ++ String Chr.BSL "") + 1)
        with (StdString.size (pre ++ String Chr.BSL (String m "")))
        by (rewrite !size_append; simpl; lia).
      rewrite IH by lia. rewrite append_assoc. reflexivity.
    + replace (pre ++ String c rest)%string with ((pre ++ String c "") ++ rest)%string
        by (rewrite append_assoc; reflexivity).
      replace (StdString.size pre + 0 + 1) with (StdString.size (pre ++ String c ""))
        by (rewrite size_append; simpl; lia).
      rewrite IH by lia. rewrite append_assoc. reflexivity.
Qed.

Lemma EscapeMIValue_escaped str : EscapeMIValue str = Some (escaped str).
Proof.
  unfold EscapeMIValue.
  exact (EscapeMIValue_loop_escaped str "" (S (StdString.size str)) (Nat.lt_succ_diag_r _)).
Qed.

(** More fuel than the loop needs changes nothing. *)
Lemma EscapeMIValue_fuel str fuel :
  StdString.size str < fuel -> EscapeMIValue_loop fuel 0 str = EscapeMIValue str.
Proof.
  intros H. rewrite EscapeMIValue_escaped.
  exact (EscapeMIValue_loop_escaped str "" fuel H).
Qed.

Lemma escaped_append s t : escaped (s ++ t) = (escaped s ++ escaped t)%string.
Proof.
  induction s as [|c s IH]; simpl; [reflexivity|].
  rewrite IH, append_assoc. reflexivity.
Qed.

Lemma escaped_plain s : plain s = true -> escaped s = s.
Proof.
  induction s as [|c s IH]; simpl; [reflexivity|].
  intros H. apply andb_true_iff in H. destruct H as [Hc Hs].
  unfold escape_char. unfold in_escape_set in Hc.
  destruct (escape_letter c); [discriminate|].
  simpl. f_equal. exact (IH Hs).
Qed.

Lemma unescape_letter_escape_letter c m :
  escape_letter c = Some m -> unescape_letter m = Some c.
Proof.
  destruct c as [[] [] [] [] [] [] [] []]; simpl; intros H;
    try discriminate; injection H as <-; reflexivity.
Qed.

Lemma not_escaped_not_backslash c :
  escape_letter c = None -> Ascii.eqb c Chr.BSL = false.
Proof.
  destruct c as [[] [] [] [] [] [] [] []]; simpl; intros H;
    try discriminate; reflexivity.
Qed.

Lemma UnescapeMIValue_escaped s : UnescapeMIValue (escaped s) = s.
Proof.
  induction s as [|c s IH]; [reflexivity|].
  simpl escaped. unfold escape_char.
  destruct (escape_letter c) as [m|] eqn:E.
  - simpl. rewrite (unescape_letter_escape_letter _ _ E), IH. reflexivity.
  - simpl. rewrite (not_escaped_not_backslash _ E), IH. reflexivity.
Qed.

(** C1. [EscapeMIValue] returns for every string, and the matching unescape
    gives the string back; a character outside the escape set stays as it
    is, between the escaped text before it and the escaped text after it; a
    string without characters of the escape set is returned unchanged; the
    empty string gives the empty string. *)
Theorem EscapeMIValue_roundtrip :
  (forall S, exists E, EscapeMIValue S = Some E /\ UnescapeMIValue E = S)
  /\ (forall S c T, in_escape_set c = false ->
        exists ES ET, EscapeMIValue S = Some ES /\ EscapeMIValue T = Some ET
          /\ EscapeMIValue (S ++ String c T) = Some (ES ++ String c ET)%string)
  /\ (forall S, plain S = true -> EscapeMIValue S = Some S)
  /\ EscapeMIValue "" = Some "".
Proof.
  repeat split.
  - intros S. exists (escaped S). split.
    + apply EscapeMIValue_escaped.
    + apply UnescapeMIValue_escaped.
  - intros S c T Hc. exists (escaped S), (escaped T).
    rewrite !EscapeMIValue_escaped, escaped_append. repeat split.
    simpl. unfold escape_char. unfold in_escape_set in Hc.
    destruct (escape_letter c); [discriminate | reflexivity].
  - intros S HS. rewrite EscapeMIValue_escaped, (escaped_plain _ HS). reflexivity.
Qed.

End Escaping.

Lemma EscapeMIValue_roundtrip_witness :
  plain "Program.dll" = true /\ EscapeMIValue "Program.dll" = Some "Program.dll".
Proof.
  split; [reflexivity|].
  apply (proj1 (proj2 (proj2 EscapeMIValue_roundtrip))). reflexivity.
Defined.

(** ** Sequential runs *)

Lemma run_bind {A B} (m : Prog A) (f : A -> Prog B) :
  forall w,
    run (bind m f) w =
    match run m w with
    | Returned a w' => run (f a) w'
    | Blocked w' => Blocked w'
    | Faulted w' => Faulted w'
    end.
Proof.
  induction m as [a|upd next IH|cond k IH|]; intros w; simpl.
  - reflexivity.
  - apply IH.
  - destruct (cond w); [apply IH | reflexivity].
  - reflexivity.
Qed.

Lemma continues_log_call c w :
  continues (log_call c w) = (continues w + if is_Continue c then 1 else 0)%nat.
Proof.
  unfold continues. simpl. rewrite List.filter_app, List.length_app. simpl.
  destruct (is_Continue c); reflexivity.
Qed.

(** ** The dispatcher *)

Section Dispatcher.

Variable env : Collaborators.

(** C3. The handlers of a breakpoint hit, of a completed step and of an
    unhandled exception return [S_OK] and leave the call log as it was: the
    number of [Continue] calls is the same before and after. *)
Theorem stop_events_do_not_resume (w : World) :
  (forall pAppDomain pThread pBreakpoint,
      exists w', run (ManagedCallback_Breakpoint env pAppDomain pThread pBreakpoint) w
                 = Returned S_OK w'
                 /\ calls w' = calls w /\ continues w' = continues w)
  /\ (forall pAppDomain pThread pStepper reason,
      exists w', run (ManagedCallback_StepComplete env pAppDomain pThread pStepper reason) w
                 = Returned S_OK w'
                 /\ calls w' = calls w /\ continues w' = continues w)
  /\ (forall pAppDomain pThread unhandled,
      truth unhandled = true ->
      exists w', run (ManagedCallback_Exception env pAppDomain pThread unhandled) w
                 = Returned S_OK w'
                 /\ calls w' = calls w /\ continues w' = continues w).
Proof.
  repeat split.
  - intros. eexists. simpl. repeat split.
  - intros. eexists. simpl. repeat split.
  - intros d t u Hu. unfold ManagedCallback_Exception. rewrite Hu.
    eexists. simpl. repeat split.
Qed.

(** C4. The handlers of a created thread, of a loaded module, of a handled
    exception, of a created app domain and of a log message return [S_OK]
    after one [Continue] call, which is the last call they make. *)
Theorem non_stop_events_resume_once (w : World) :
  (forall pAppDomain thread,
      exists w', run (ManagedCallback_CreateThread pAppDomain thread) w = Returned S_OK w'
                 /\ calls w' = (calls w ++ [Call_Continue (AppDomain_controller pAppDomain) 0])%list
                 /\ continues w' = S (continues w))
  /\ (forall pAppDomain pModule,
      exists w', run (ManagedCallback_LoadModule env pAppDomain pModule) w = Returned S_OK w'
                 /\ calls w' =
                    (calls w
                     ++ (if symbols_symbolsLoaded (TryLoadModuleSymbols env pModule)
                         then [Call_TryResolveBreakpointsForModule (module_id pModule)]
                         else [])
                     ++ [Call_Continue (AppDomain_controller pAppDomain) 0])%list
                 /\ continues w' = S (continues w))
  /\ (forall pAppDomain pThread unhandled,
      truth unhandled = false ->
      exists w', run (ManagedCallback_Exception env pAppDomain pThread unhandled) w
                 = Returned S_OK w'
                 /\ calls w' = (calls w ++ [Call_Continue (AppDomain_controller pAppDomain) 0])%list
                 /\ continues w' = S (continues w))
  /\ (forall pProcess pAppDomain,
      exists w', run (ManagedCallback_CreateAppDomain pProcess pAppDomain) w = Returned S_OK w'
                 /\ calls w' = (calls w ++ [Call_Continue (Process_controller pProcess) 0])%list
                 /\ continues w' = S (continues w))
  /\ (forall pAppDomain pThread lLevel pLogSwitchName pMessage,
      exists w', run (ManagedCallback_LogMessage pAppDomain pThread lLevel
                        pLogSwitchName pMessage) w = Returned S_OK w'
                 /\ calls w' = (calls w ++ [Call_Continue (AppDomain_controller pAppDomain) 0])%list
                 /\ continues w' = S (continues w)).
Proof.
  assert (Hone : forall c (v : World),
             continues (log_call (Call_Continue c 0) v) = S (continues v)).
  { intros. rewrite continues_log_call. simpl. lia. }
  repeat split.
  - intros. eexists. simpl. repeat split. rewrite Hone. reflexivity.
  - intros d m. unfold ManagedCallback_LoadModule.
    rewrite EscapeMIValue_escaped.
    destruct (symbols_symbolsLoaded (TryLoadModuleSymbols env m)); eexists; simpl;
      repeat split.
    + simpl. rewrite <- List.app_assoc. reflexivity.
    + rewrite Hone, continues_log_call. simpl. rewrite Nat.add_0_r. reflexivity.
    + rewrite Hone. reflexivity.
  - intros d t u Hu. unfold ManagedCallback_Exception. rewrite Hu.
    destruct (GetExceptionInfo env t) as [[hr excType] excModule].
    eexists. simpl. repeat split. rewrite Hone. reflexivity.
  - intros. eexists. simpl. repeat split. rewrite Hone. reflexivity.
  - intros. eexists. simpl. repeat split. rewrite Hone. reflexivity.
Qed.

End Dispatcher.

Lemma stop_events_do_not_resume_witness :
  truth TRUE = true
  /\ exists w', run (ManagedCallback_Exception Demo.env Demo.appdomain Demo.thread TRUE)
                  Demo.registered = Returned S_OK w'
                /\ calls w' = calls Demo.registered
                /\ continues w' = continues Demo.registered.
Proof.
  split; [reflexivity|].
  apply (proj2 (proj2 (stop_events_do_not_resume Demo.env Demo.registered))).
  reflexivity.
Defined.

Lemma non_stop_events_resume_once_witness :
  truth FALSE = false
  /\ exists w', run (ManagedCallback_Exception Demo.env Demo.appdomain Demo.thread FALSE)
                  Demo.registered = Returned S_OK w'
                /\ calls w' = (calls Demo.registered
                               ++ [Call_Continue (AppDomain_controller Demo.appdomain) 0])%list
                /\ continues w' = S (continues Demo.registered).
Proof.
  split; [reflexivity|].
  apply (proj1 (proj2 (proj2 (non_stop_events_resume_once Demo.env Demo.registered)))).
  reflexivity.
Defined.

Section Stops.

Variable env : Collaborators.

(** C6. When the thread reports the id 7, the breakpoint is resolved to 3
    and the frame is rendered as [Program.Main() Line 10], the breakpoint
    handler writes the line
    [*stopped,reason="breakpoint-hit",thread-id="7",stopped-threads="all",bkptno="3",frame={Program.Main() Line 10}]
    and a newline to the standard output, and leaves 7 in
    [g_lastStoppedThreadId]. *)
Theorem Breakpoint_line_7_3 (w : World) pAppDomain pThread pBreakpoint pFrame :
  thread_GetID pThread = COk 7 ->
  FindCurrentBreakpointId env pThread = COk 3 ->
  thread_GetActiveFrame pThread = COk pFrame ->
  PrintFrameLocation env pFrame = "Program.Main() Line 10" ->
  exists w',
    run (ManagedCallback_Breakpoint env pAppDomain pThread pBreakpoint) w = Returned S_OK w'
    /\ stdout w' =
       (stdout w
        ++ "*stopped,reason=" ++ String Chr.DQ "breakpoint-hit" ++ String Chr.DQ
           ",thread-id=" ++ String Chr.DQ "7" ++ String Chr.DQ
           ",stopped-threads=" ++ String Chr.DQ "all" ++ String Chr.DQ
           ",bkptno=" ++ String Chr.DQ "3" ++ String Chr.DQ
           ",frame={Program.Main() Line 10}" ++ String Chr.LF "")%string
    /\ g_lastStoppedThreadId w' = 7.
Proof.
  intros Hid Hbp Hframe Htext.
  unfold ManagedCallback_Breakpoint, SetLastStoppedThread, frame_location.
  rewrite Hid, Hbp, Hframe, Htext.
  eexists. simpl. repeat split.
Qed.

(** C9. The handler of the process exit writes the line
    [*stopped,reason="exited",exit-code="0"] and a newline, whatever process
    exits and in whatever state; with a process in the registry it then
    returns [S_OK]. *)
Theorem ExitProcess_line (w : World) pProcess :
  stdout (final (run (ManagedCallback_ExitProcess pProcess) w)) =
    (stdout w ++ "*stopped,reason=" ++ String Chr.DQ "exited" ++ String Chr.DQ
               ",exit-code=" ++ String Chr.DQ "0" ++ String Chr.DQ (String Chr.LF ""))%string
  /\ (forall registered, g_process w = Some registered ->
        exists w', run (ManagedCallback_ExitProcess pProcess) w = Returned S_OK w').
Proof.
  split.
  - simpl. destruct (g_process w); reflexivity.
  - intros p Hp. simpl. rewrite Hp. eexists. reflexivity.
Qed.

(** C10. The exception handler returns [S_OK] with the id that the thread
    reports, converted to [int], in [g_lastStoppedThreadId], for an
    unhandled exception as for a handled one; the handled one is also
    resumed, by the one [Continue] call of the handler. *)
Theorem Exception_sets_last_stopped_thread (w : World) pAppDomain pThread unhandled threadId :
  thread_GetID pThread = COk threadId ->
  exists w',
    run (ManagedCallback_Exception env pAppDomain pThread unhandled) w = Returned S_OK w'
    /\ g_lastStoppedThreadId w' = Int.i32 threadId
    /\ (0 <= threadId < 2 ^ 31 -> g_lastStoppedThreadId w' = threadId)
    /\ (truth unhandled = false -> continues w' = S (continues w)).
Proof.
  intros Hid.
  assert (Hint : 0 <= threadId < 2 ^ 31 -> Int.i32 threadId = threadId).
  { intros H. unfold Int.i32, Int.u32, Int.wrap.
    rewrite Z.mod_small by lia.
    destruct (Z.ltb_spec threadId (2 ^ 31)); lia. }
  unfold ManagedCallback_Exception, SetLastStoppedThread. rewrite Hid.
  destruct (truth unhandled).
  - eexists. simpl. repeat split; [exact Hint | discriminate].
  - destruct (GetExceptionInfo env pThread) as [[hr excType] excModule].
    eexists. simpl. repeat split; [exact Hint|].
    intros _. rewrite continues_log_call. simpl. rewrite Nat.add_1_r. reflexivity.
Qed.

End Stops.

Lemma Breakpoint_line_7_3_witness :
  exists w',
    run (ManagedCallback_Breakpoint Demo.env Demo.appdomain Demo.thread Demo.breakpoint)
        Demo.registered = Returned S_OK w'
    /\ stdout w' =
       (stdout Demo.registered
        ++ "*stopped,reason=" ++ String Chr.DQ "breakpoint-hit" ++ String Chr.DQ
           ",thread-id=" ++ String Chr.DQ "7" ++ String Chr.DQ
           ",stopped-threads=" ++ String Chr.DQ "all" ++ String Chr.DQ
           ",bkptno=" ++ String Chr.DQ "3" ++ String Chr.DQ
           ",frame={Program.Main() Line 10}" ++ String Chr.LF "")%string
    /\ g_lastStoppedThreadId w' = 7.
Proof.
  apply (Breakpoint_line_7_3 Demo.env Demo.registered Demo.appdomain Demo.thread
           Demo.breakpoint Demo.frame); reflexivity.
Defined.

Lemma ExitProcess_line_witness :
  g_process Demo.registered = Some Demo.process
  /\ exists w', run (ManagedCallback_ExitProcess Demo.process) Demo.registered
                = Returned S_OK w'.
Proof.
  split; [reflexivity|].
  apply (proj2 (ExitProcess_line Demo.registered Demo.process) Demo.process).
  reflexivity.
Defined.

Lemma Exception_sets_last_stopped_thread_witness :
  exists w',
    run (ManagedCallback_Exception Demo.env Demo.appdomain Demo.thread FALSE)
        Demo.registered = Returned S_OK w'
    /\ g_lastStoppedThreadId w' = Int.i32 7
    /\ (0 <= 7 < 2 ^ 31 -> g_lastStoppedThreadId w' = 7)
    /\ (truth FALSE = false -> continues w' = S (continues Demo.registered)).
Proof.
  apply (Exception_sets_last_stopped_thread Demo.env Demo.registered Demo.appdomain
           Demo.thread FALSE 7).
  reflexivity.
Defined.

(** ** The safe memory reader *)

Section Reader.

Variable env : Collaborators.

Lemma u32_le (x : Z) : 0 <= x -> Int.u32 x <= x.
Proof. intros H. unfold Int.u32, Int.wrap. apply Z.mod_le; lia. Qed.

Lemma u64_nonneg (x : Z) : 0 <= Int.u64 x.
Proof. unfold Int.u64, Int.wrap. apply Z.mod_pos_bound. lia. Qed.

(** The second read asks for the distance from [offset] to
    [NextOSPageAddress offset], cut to an [ULONG]: never for more. *)
Lemma fallback_cb_within_page (offset : Z) :
  fallback_cb env offset <= Int.u64 (NextOSPageAddress env offset - offset).
Proof. unfold fallback_cb. apply u32_le, u64_nonneg. Qed.

(** When the first read fails, the reads that are issued are the one of
    [cb] bytes and the one of [fallback_cb offset] bytes, from [offset]. *)
Lemma SafeReadMemory_fallback_request (offset cb : Z) (w : World) p :
  g_process w = Some p ->
  SUCCEEDED (read_status (process_ReadMemory p (reads w) offset cb)) = false ->
  calls (snd (SafeReadMemory_locked env offset cb w)) =
    (calls w ++ [Call_ReadMemory (process_id p) offset cb;
                 Call_ReadMemory (process_id p) offset (fallback_cb env offset)])%list.
Proof.
  intros Hp Hfail. unfold SafeReadMemory_locked, ReadMemory. rewrite Hp, Hfail. simpl.
  rewrite <- List.app_assoc. reflexivity.
Qed.

(** A debuggee that never reports more bytes than a read asked for keeps the
    count that is handed back within the larger of the two requests, and
    within [cb] when the distance to the page boundary is at most [cb]. *)
Lemma SafeReadMemory_count_bound (offset cb : Z) (w : World) :
  0 <= cb ->
  (forall p k address size v,
      g_process w = Some p ->
      read_stored (process_ReadMemory p k address size) = Some v -> 0 <= v <= size) ->
  forall n,
    safe_cbBytesRead (fst (SafeReadMemory_locked env offset cb w)) = Some n ->
    n <= Z.max cb (fallback_cb env offset)
    /\ (fallback_cb env offset <= cb -> n <= cb).
Proof.
  intros Hcb Hhonest n. unfold SafeReadMemory_locked, ReadMemory.
  destruct (g_process w) as [p|] eqn:Hp; [|discriminate].
  assert (Hfirst : 0 <= store (read_stored (process_ReadMemory p (reads w) offset cb)) 0 <= cb).
  { destruct (read_stored _) as [v|] eqn:E; simpl; [|lia].
    apply (Hhonest p _ _ _ _ eq_refl E). }
  destruct (SUCCEEDED (read_status (process_ReadMemory p (reads w) offset cb))); simpl.
  - intros H. injection H as <-.
    pose proof (u32_le _ (proj1 Hfirst)). lia.
  - intros H. injection H as <-.
    fold (fallback_cb env offset).
    match goal with
    | |- context [store (read_stored ?a) ?x] =>
        assert (Hsecond : 0 <= store (read_stored a) x
                          <= Z.max cb (fallback_cb env offset));
        [ destruct (read_stored a) as [v|] eqn:E; simpl;
          [ pose proof (Hhonest p _ _ _ _ eq_refl E); lia | lia ] | ]
    end.
    pose proof (u32_le _ (proj1 Hsecond)). lia.
Qed.

End Reader.

(** C2, at the input where the code leaves it: a read of 8 bytes at 8192
    whose first attempt fails.  The second attempt asks for the 4096 bytes up
    to the next page, the debuggee delivers them, and 4096 is handed back as
    the count for a request of 8. *)
Theorem SafeReadMemory_count_exceeds_request :
  exists w',
    SafeReadMemory_locked Demo.env 8192 8 Demo.registered
    = ({| safe_bRet := true; safe_cbBytesRead := Some 4096 |}, w')
    /\ calls w' = [Call_ReadMemory 1 8192 8; Call_ReadMemory 1 8192 4096]
    /\ NextOSPageAddress Demo.env 8192 - 8192 = 4096
    /\ ~ (4096 <= 8).
Proof.
  eexists. repeat split. lia.
Qed.

Lemma Demo_ReadMemory_reports_at_most_the_request k address size v :
  0 <= size -> read_stored (Demo.ReadMemory k address size) = Some v -> 0 <= v <= size.
Proof.
  intros Hsize. destruct k; simpl; intros H; [discriminate|].
  injection H as <-. lia.
Qed.

(** ** The facade, run on its own *)

Lemma log_calls_nil w : log_calls [] w = w.
Proof. destruct w. unfold log_calls. simpl. rewrite List.app_nil_r. reflexivity. Qed.

Lemma log_calls_app cs1 cs2 w : log_calls cs2 (log_calls cs1 w) = log_calls (cs1 ++ cs2) w.
Proof. unfold log_calls. simpl. rewrite List.app_assoc. reflexivity. Qed.

Lemma log_call_log_calls c w : log_call c w = log_calls [c] w.
Proof. reflexivity. Qed.

Lemma run_native c w : run (native c) w = Returned tt (log_calls [c] w).
Proof. reflexivity. Qed.

Lemma run_for_each_native {A} (f : A -> Call) (items : list A) :
  forall w,
    run (for_each items (fun x => native (f x))) w
    = Returned tt (log_calls (List.map f items) w).
Proof.
  induction items as [|x items IH]; intros w; simpl.
  - rewrite log_calls_nil. reflexivity.
  - rewrite IH. rewrite log_call_log_calls, log_calls_app. reflexivity.
Qed.

Lemma run_DisableAllBreakpointsAndSteppersInAppDomain pAppDomain w :
  run (DisableAllBreakpointsAndSteppersInAppDomain pAppDomain) w
  = Returned S_OK (log_calls (appdomain_calls pAppDomain) w).
Proof.
  unfold DisableAllBreakpointsAndSteppersInAppDomain, appdomain_calls.
  rewrite run_bind.
  assert (Hb : run match appdomain_EnumerateBreakpoints pAppDomain with
                   | COk breakpoints =>
                       for_each breakpoints (fun pBreakpoint =>
                         native (Call_Activate (breakpoint_id pBreakpoint) FALSE))
                   | CErr _ => Ret tt
                   end w
               = Returned tt
                   (log_calls match appdomain_EnumerateBreakpoints pAppDomain with
                              | COk breakpoints =>
                                  List.map (fun b => Call_Activate (breakpoint_id b) FALSE)
                                    breakpoints
                              | CErr _ => []
                              end w)).
  { destruct (appdomain_EnumerateBreakpoints pAppDomain).
    - apply (run_for_each_native (fun b => Call_Activate (breakpoint_id b) FALSE)).
    - simpl. rewrite log_calls_nil. reflexivity. }
  rewrite Hb. rewrite run_bind, run_native, log_calls_app, run_bind.
  match goal with
  | |- context [run ?m ?v] =>
      assert (Hs : run m v
                   = Returned tt
                       (log_calls match appdomain_EnumerateSteppers pAppDomain with
                                  | COk steppers =>
                                      List.map (fun s => Call_Deactivate (stepper_id s))
                                        steppers
                                  | CErr _ => []
                                  end v))
  end.
  { destruct (appdomain_EnumerateSteppers pAppDomain).
    - apply (run_for_each_native (fun s => Call_Deactivate (stepper_id s))).
    - simpl. rewrite log_calls_nil. reflexivity. }
  rewrite Hs, log_calls_app. simpl. rewrite <- List.app_assoc. reflexivity.
Qed.

Lemma run_for_each_appdomain (domains : list ICorDebugAppDomain) :
  forall w,
    run (for_each domains (fun pDomain =>
           bind (DisableAllBreakpointsAndSteppersInAppDomain pDomain) (fun _ => Ret tt))) w
    = Returned tt (log_calls (List.flat_map appdomain_calls domains) w).
Proof.
  induction domains as [|d domains IH]; intros w.
  - simpl. rewrite log_calls_nil. reflexivity.
  - cbn [for_each]. rewrite run_bind, run_bind,
      run_DisableAllBreakpointsAndSteppersInAppDomain.
    cbn [run]. rewrite IH, log_calls_app. reflexivity.
Qed.

(** [DisableAllBreakpointsAndSteppers] always returns, after the calls of
    [process_calls]. *)
Lemma run_DisableAllBreakpointsAndSteppers pProcess w :
  exists Status,
    run (DisableAllBreakpointsAndSteppers pProcess) w
    = Returned Status (log_calls (process_calls pProcess) w).
Proof.
  unfold DisableAllBreakpointsAndSteppers, process_calls.
  destruct (process_EnumerateAppDomains pProcess) as [domains|Status].
  - exists S_OK. cbv beta iota. rewrite run_bind, run_for_each_appdomain. reflexivity.
  - exists Status. simpl. rewrite log_calls_nil. reflexivity.
Qed.

Ltac run_step :=
  first [ rewrite run_bind | rewrite run_native | rewrite log_calls_app
        | progress cbn [run] | progress cbv beta iota ].

Ltac run_disable :=
  match goal with
  | |- context [run (DisableAllBreakpointsAndSteppers ?p) ?v] =>
      let Status := fresh "Status" in
      destruct (run_DisableAllBreakpointsAndSteppers p v) as [Status ->]
  end.

Ltac same_log :=
  unfold log_calls, idle; simpl; rewrite <- ?List.app_assoc; reflexivity.

Lemma run_DetachFromProcess this pProcess pDebug w :
  m_pProcess this = Some pProcess -> m_pDebug this = Some pDebug ->
  run (DetachFromProcess this) w
  = Returned (S_OK, idle) (log_calls (detach_calls pProcess pDebug) w).
Proof.
  intros Hp Hd. unfold DetachFromProcess, detach_calls, Stop. rewrite Hp, Hd.
  repeat run_step. destruct (SUCCEEDED (process_Stop pProcess)).
  - repeat run_step. run_disable. repeat run_step. same_log.
  - repeat run_step. same_log.
Qed.

(** With an empty registry the wait of [TerminateProcess] lets it through. *)
Lemma run_TerminateProcess this pProcess pDebug w :
  m_pProcess this = Some pProcess -> m_pDebug this = Some pDebug ->
  g_process w = None ->
  run (TerminateProcess this) w
  = Returned (S_OK, idle) (log_calls (terminate_calls pProcess pDebug) w).
Proof.
  intros Hp Hd Hg. unfold TerminateProcess, terminate_calls, Stop, WaitProcessExited.
  rewrite Hp, Hd.
  assert (Hwait : forall cs, no_process (log_calls cs w) = true).
  { intros cs. unfold no_process. simpl. rewrite Hg. reflexivity. }
  repeat run_step. destruct (SUCCEEDED (process_Stop pProcess)).
  - repeat run_step. run_disable. repeat run_step. rewrite Hwait.
    repeat run_step. same_log.
  - repeat run_step. rewrite Hwait. repeat run_step. same_log.
Qed.

Lemma run_TerminateProcess_not_attached this w :
  (m_pProcess this = None \/ m_pDebug this = None) ->
  run (TerminateProcess this) w = Returned (E_FAIL, this) w.
Proof.
  unfold TerminateProcess. intros [H|H]; rewrite H.
  - reflexivity.
  - destruct (m_pProcess this); reflexivity.
Qed.

Section Facade.

Variable env : Collaborators.

(** C7. With an empty registry, attaching to a process for which
    [GetCoreCLRPath] finds nothing leaves through the return of
    [E_INVALIDARG] that stands for the missing runtime, a failure other than
    the [E_FAIL] of a facade that is already attached, and the registry is
    still empty; a facade that was idle is left as it was, and so is the
    state. *)
Theorem AttachToProcess_runtime_not_found (this : Debugger) (pid : Z) (w : World) :
  g_process w = None ->
  GetCoreCLRPath env pid = "" ->
  exists this' w',
    run (AttachToProcess env this pid) w = Returned (Attach_RuntimeNotFound, this') w'
    /\ HRESULT_of Attach_RuntimeNotFound = E_INVALIDARG
    /\ FAILED E_INVALIDARG = true
    /\ E_INVALIDARG <> HRESULT_of Attach_AlreadyAttached
    /\ g_process w' = None
    /\ (attached_flag this = false -> this' = this /\ w' = w).
Proof.
  intros Hg Hpath.
  assert (Hconnect : forall d v,
             run (AttachToProcess_connect env d pid) v
             = Returned (Attach_RuntimeNotFound, d) v).
  { intros d v. unfold AttachToProcess_connect. rewrite Hpath. reflexivity. }
  unfold AttachToProcess.
  destruct (attached_flag this) eqn:Hflag.
  - rewrite run_bind. cbn [atomic run fst snd]. rewrite Hg, run_bind.
    destruct (m_pProcess this) as [pProcess|] eqn:Hp;
      [destruct (m_pDebug this) as [pDebug|] eqn:Hd|].
    + rewrite (run_TerminateProcess this pProcess pDebug w Hp Hd Hg).
      cbn [snd]. rewrite Hconnect.
      do 2 eexists. repeat split; try exact Hg; discriminate.
    + rewrite (run_TerminateProcess_not_attached this w (or_intror Hd)).
      cbn [snd]. rewrite Hconnect.
      do 2 eexists. repeat split; try exact Hg; discriminate.
    + rewrite (run_TerminateProcess_not_attached this w (or_introl Hp)).
      cbn [snd]. rewrite Hconnect.
      do 2 eexists. repeat split; try exact Hg; discriminate.
  - rewrite Hconnect. do 2 eexists. repeat split; try exact Hg; discriminate.
Qed.

(** C8, as the code has it.  On an attached facade [DetachFromProcess]
    returns [S_OK] with both fields cleared, whatever the stop call
    answered.  When the stop call fails, the calls that disable breakpoints
    and steppers and the [Detach] call are left out, and nothing else: the
    modules are cleaned up, the process is released and the native interface
    is terminated.  When it succeeds, [Detach] follows the disabling. *)
Theorem DetachFromProcess_best_effort (this : Debugger) pProcess pDebug (w : World) :
  m_pProcess this = Some pProcess ->
  m_pDebug this = Some pDebug ->
  run (DetachFromProcess this) w
  = Returned (S_OK, idle) (log_calls (detach_calls pProcess pDebug) w)
  /\ (SUCCEEDED (process_Stop pProcess) = false ->
      detach_calls pProcess pDebug =
        [Call_Stop (process_id pProcess) 0;
         Call_CleanupAllModules;
         Call_Release (process_id pProcess);
         Call_CorDebugTerminate (cordebug_id pDebug)])
  /\ (SUCCEEDED (process_Stop pProcess) = true ->
      detach_calls pProcess pDebug =
        ([Call_Stop (process_id pProcess) 0]
         ++ process_calls pProcess
         ++ [Call_Detach (process_id pProcess);
             Call_CleanupAllModules;
             Call_Release (process_id pProcess);
             Call_CorDebugTerminate (cordebug_id pDebug)])%list).
Proof.
  intros Hp Hd. split; [exact (run_DetachFromProcess this pProcess pDebug w Hp Hd)|].
  unfold detach_calls. split; intros ->.
  - reflexivity.
  - simpl. rewrite <- List.app_assoc. reflexivity.
Qed.

End Facade.

Lemma AttachToProcess_runtime_not_found_witness :
  exists this' w',
    run (AttachToProcess Demo.env idle 4711) Demo.start
    = Returned (Attach_RuntimeNotFound, this') w'
    /\ HRESULT_of Attach_RuntimeNotFound = E_INVALIDARG
    /\ FAILED E_INVALIDARG = true
    /\ E_INVALIDARG <> HRESULT_of Attach_AlreadyAttached
    /\ g_process w' = None
    /\ (attached_flag idle = false -> this' = idle /\ w' = Demo.start).
Proof.
  apply (AttachToProcess_runtime_not_found Demo.env idle 4711 Demo.start); reflexivity.
Defined.

Lemma DetachFromProcess_best_effort_witness :
  run (DetachFromProcess Demo.attached_running) Demo.registered_running
  = Returned (S_OK, idle)
      (log_calls (detach_calls Demo.running_process Demo.cordebug) Demo.registered_running)
  /\ (SUCCEEDED (process_Stop Demo.running_process) = false ->
      detach_calls Demo.running_process Demo.cordebug =
        [Call_Stop 1 0; Call_CleanupAllModules; Call_Release 1; Call_CorDebugTerminate 1])
  /\ (SUCCEEDED (process_Stop Demo.running_process) = true ->
      detach_calls Demo.running_process Demo.cordebug =
        ([Call_Stop 1 0] ++ process_calls Demo.running_process
         ++ [Call_Detach 1; Call_CleanupAllModules; Call_Release 1;
             Call_CorDebugTerminate 1])%list).
Proof.
  apply (DetachFromProcess_best_effort Demo.attached_running Demo.running_process
           Demo.cordebug Demo.registered_running); reflexivity.
Defined.

(** C8 as the specification has it fails on a debuggee that refuses to
    stop: the facade is attached, the stop call fails, and the run of
    [DetachFromProcess] issues no [Detach] call. *)
Lemma DetachFromProcess_skips_Detach :
  m_pProcess Demo.attached_running = Some Demo.running_process
  /\ m_pDebug Demo.attached_running = Some Demo.cordebug
  /\ SUCCEEDED (process_Stop Demo.running_process) = false
  /\ exists w',
       run (DetachFromProcess Demo.attached_running) Demo.registered_running
       = Returned (S_OK, idle) w'
       /\ calls w' = [Call_Stop 1 0; Call_CleanupAllModules; Call_Release 1;
                      Call_CorDebugTerminate 1]
       /\ ~ In (Call_Detach (process_id Demo.running_process)) (calls w').
Proof.
  repeat split. eexists. repeat split.
  simpl. intros H. repeat (destruct H as [H|H]; [discriminate|]). exact H.
Qed.

(** ** The two threads: forced termination *)

Lemma quiet_weaken {A} (P R : A -> Prop) (m : Prog A) :
  (forall a, P a -> R a) -> quiet P m -> quiet R m.
Proof.
  intros HPR H. induction H as [a Ha|upd next Hupd _ IH|cond k _ IH|].
  - apply quiet_ret, HPR, Ha.
  - apply quiet_atom; assumption.
  - apply quiet_wait, IH.
  - apply quiet_fault.
Qed.

Lemma quiet_bind {A B} (P : A -> Prop) (R : B -> Prop) (m : Prog A) (k : A -> Prog B) :
  quiet P m -> (forall a, P a -> quiet R (k a)) -> quiet R (bind m k).
Proof.
  intros H Hk. induction H as [a Ha|upd next Hupd _ IH|cond k' _ IH|]; simpl.
  - apply Hk, Ha.
  - apply quiet_atom; assumption.
  - apply quiet_wait, IH.
  - apply quiet_fault.
Qed.

Lemma quiet_atomic {A} (f : World -> A * World) :
  (forall w, g_process (snd (f w)) = g_process w) -> quiet anything (atomic f).
Proof.
  intros H. apply quiet_atom; [exact H|]. intros w. apply quiet_ret. exact I.
Qed.

Lemma quiet_native c : quiet anything (native c).
Proof. apply quiet_atomic. reflexivity. Qed.

Lemma quiet_out_printf text : quiet anything (out_printf text).
Proof. apply quiet_atomic. reflexivity. Qed.

Lemma quiet_Continue controller f : quiet anything (Continue controller f).
Proof. apply quiet_native. Qed.

Lemma quiet_SetLastStoppedThread pThread : quiet anything (SetLastStoppedThread pThread).
Proof. apply quiet_atomic. reflexivity. Qed.

Lemma quiet_Ret {A} (a : A) : quiet anything (Ret a).
Proof. apply quiet_ret. exact I. Qed.

Lemma quiet_then {A B} (m : Prog A) (k : A -> Prog B) :
  quiet anything m -> (forall a, quiet anything (k a)) -> quiet anything (bind m k).
Proof. intros Hm Hk. apply (quiet_bind anything); [exact Hm | intros a _; apply Hk]. Qed.

Lemma quiet_for_each {A} (items : list A) (body : A -> Prog unit) :
  (forall x, quiet anything (body x)) -> quiet anything (for_each items body).
Proof.
  intros Hbody. induction items as [|x items IH]; simpl.
  - apply quiet_Ret.
  - apply quiet_then; [apply Hbody | intros _; exact IH].
Qed.

Create HintDb quiet.
#[local] Hint Resolve quiet_native quiet_out_printf quiet_Continue
  quiet_SetLastStoppedThread quiet_Ret quiet_for_each : quiet.

Ltac quiet_steps :=
  repeat first
    [ apply quiet_then; [|intros ?]
    | solve [auto with quiet]
    | apply quiet_fault
    | solve [apply quiet_atomic; reflexivity]
    | match goal with
      | |- quiet _ (if ?b then _ else _) => destruct b
      | |- quiet _ (match ?x with _ => _ end) => destruct x
      end ].

Lemma quiet_HandleEvent controller eventName :
  quiet anything (ManagedCallback_HandleEvent controller eventName).
Proof. unfold ManagedCallback_HandleEvent. quiet_steps. Qed.

#[local] Hint Resolve quiet_HandleEvent : quiet.

Lemma quiet_DisableAllBreakpointsAndSteppersInAppDomain pAppDomain :
  quiet anything (DisableAllBreakpointsAndSteppersInAppDomain pAppDomain).
Proof.
  unfold DisableAllBreakpointsAndSteppersInAppDomain. quiet_steps;
    apply quiet_for_each; intros; apply quiet_native.
Qed.

Lemma quiet_DisableAllBreakpointsAndSteppers pProcess :
  quiet anything (DisableAllBreakpointsAndSteppers pProcess).
Proof.
  unfold DisableAllBreakpointsAndSteppers.
  destruct (process_EnumerateAppDomains pProcess); [|apply quiet_Ret].
  apply quiet_then; [|intros; apply quiet_Ret].
  apply quiet_for_each. intros d. apply quiet_then; [|intros; apply quiet_Ret].
  apply quiet_DisableAllBreakpointsAndSteppersInAppDomain.
Qed.

Section Termination.

Variable env : Collaborators.

(** While a session runs, the handler of whatever the runtime may deliver
    next leaves the registry alone. *)
Lemma quiet_dispatch n :
  deliver Running n = Some Running -> quiet anything (dispatch env n).
Proof.
  destruct n; simpl; intros H; try discriminate;
    try (match goal with
         | |- quiet _ (?f _ _ _ _ _ _ _) => unfold f
         | |- quiet _ (?f _ _ _ _ _ _) => unfold f
         | |- quiet _ (?f _ _ _ _ _) => unfold f
         | |- quiet _ (?f _ _ _ _) => unfold f
         | |- quiet _ (?f _ _ _) => unfold f
         | |- quiet _ (?f _ _) => unfold f
         | |- quiet _ (?f _) => unfold f
         end); quiet_steps.
Qed.

Lemma unregisters_ExitProcess pProcess :
  unregisters (ManagedCallback_ExitProcess pProcess).
Proof.
  unfold ManagedCallback_ExitProcess, out_printf, native, NotifyProcessExited, atomic.
  simpl.
  apply unregisters_later; [reflexivity | intros _].
  apply unregisters_later; [reflexivity | intros _].
  apply unregisters_now; intros w.
  - destruct (g_process w) eqn:E; [reflexivity | exact E].
  - intros H. destruct (g_process w); [reflexivity | contradiction].
Qed.

Lemma awaits_bind {A B} (R : B -> Prop) (m : Prog A) (k : A -> Prog B) :
  quiet anything m -> (forall a, awaits_exit R (k a)) -> awaits_exit R (bind m k).
Proof.
  intros H Hk. induction H as [a Ha|upd next Hupd _ IH|cond k' _ IH|]; simpl.
  - apply Hk.
  - apply awaits_atom; assumption.
  - apply awaits_later, IH.
  - apply awaits_fault.
Qed.

(** On an attached facade, [TerminateProcess] returns only past its wait
    for the empty registry, and then it returns [S_OK] and the idle facade. *)
Lemma awaits_exit_TerminateProcess this pProcess pDebug :
  m_pProcess this = Some pProcess -> m_pDebug this = Some pDebug ->
  awaits_exit (eq (S_OK, idle)) (TerminateProcess this).
Proof.
  intros Hp Hd. unfold TerminateProcess. rewrite Hp, Hd.
  apply awaits_bind.
  { unfold Stop. quiet_steps. }
  intros stopped. apply awaits_bind.
  { destruct (SUCCEEDED stopped); [|apply quiet_Ret].
    apply quiet_then; [apply quiet_DisableAllBreakpointsAndSteppers | intros; apply quiet_Ret]. }
  intros _. apply awaits_bind; [apply quiet_native|]. intros _.
  apply awaits_bind; [apply quiet_native|]. intros _.
  unfold WaitProcessExited. simpl.
  apply awaits_here.
  - intros w. unfold no_process. destruct (g_process w); [discriminate | reflexivity].
  - apply quiet_atom; [reflexivity | intros _].
    apply quiet_atom; [reflexivity | intros _].
    apply quiet_ret. reflexivity.
Qed.

(** A step of either thread keeps both invariants. *)
Lemma step_invariant {A} (R : A -> Prop) (c c' : Config A) :
  step env c c' ->
  registry_invariant c /\ command_invariant R c ->
  registry_invariant c' /\ command_invariant R c'.
Proof.
  intros Hstep [Hreg Hcmd].
  destruct Hstep as [c1 h s w c2 w' Hthread|c s w n s' Hdeliver
                    |c h1 s w h2 w' Hthread|c hr s w];
    unfold registry_invariant, command_invariant in *; simpl in *.
  - (* the command thread *)
    assert (Hsame : g_process w' = g_process w
                    /\ (awaits_exit R c2 \/ quiet R c2 /\ g_process w' = None)).
    { destruct Hcmd as [Hawait|[Hquiet Hempty]].
      - inversion Hawait as [upd next Hupd Hnext Heq|cond k Hcond Hk Heq
                            |cond k Hk Heq|Heq];
          subst c1; inversion Hthread; subst.
        + split; [apply Hupd | left; apply Hnext].
        + split; [reflexivity | right; split; [exact Hk | apply Hcond; assumption]].
        + split; [reflexivity | left; exact Hk].
      - inversion Hquiet as [a Ha Heq|upd next Hupd Hnext Heq|cond k Hk Heq|Heq];
          subst c1; inversion Hthread; subst.
        + split; [apply Hupd | right; split; [apply Hnext | rewrite Hupd; exact Hempty]].
        + split; [reflexivity | right; split; [exact Hk | exact Hempty]]. }
    destruct Hsame as [Hsame Hcmd']. split; [rewrite Hsame; exact Hreg | exact Hcmd'].
  - (* a notification is delivered *)
    split; [|exact Hcmd].
    destruct s; try contradiction.
    + destruct Hreg as [Hsome _].
      destruct n; simpl in Hdeliver; try discriminate;
        injection Hdeliver as <-;
        try (split; [exact Hsome | right; eexists; split;
                                   [reflexivity | apply quiet_dispatch; reflexivity]]).
      left. split; [exact Hsome|]. eexists. split; [reflexivity|].
      apply unregisters_ExitProcess.
    + destruct n; discriminate.
  - (* the handler *)
    assert (Hreg' : match s with
                    | NotStarted => False
                    | Running =>
                        g_process w' <> None
                        /\ (Some h2 = None
                            \/ exists h, Some h2 = Some h /\ quiet anything h)
                    | Exited =>
                        (g_process w' <> None
                         /\ exists h, Some h2 = Some h /\ unregisters h)
                        \/ (g_process w' = None
                            /\ (Some h2 = None \/ Some h2 = Some (Ret S_OK)))
                    end
                    /\ (g_process w = None -> g_process w' = None)).
    { destruct s; try contradiction.
      - destruct Hreg as [Hsome [Hnone|[h [Hh Hquiet]]]]; [discriminate|].
        injection Hh as <-.
        inversion Hquiet as [a Ha Heq|upd next Hupd Hnext Heq|cond k Hk Heq|Heq];
          subst h1; inversion Hthread; subst.
        + rewrite Hupd. split; [|intros; contradiction].
          split; [exact Hsome | right; eexists; split; [reflexivity | apply Hnext]].
        + split; [|intros; contradiction].
          split; [exact Hsome | right; eexists; split; [reflexivity | exact Hk]].
      - destruct Hreg as [[Hsome [h [Hh Hunreg]]]|[Hempty [Hnone|Hret]]].
        + injection Hh as <-.
          inversion Hunreg as [upd next Hupd Hnext Heq|upd next Hupd Hnext Heq];
            subst h1; inversion Hthread; subst.
          * rewrite Hupd. split; [|intros; contradiction].
            left. split; [exact Hsome | eexists; split; [reflexivity | apply Hnext]].
          * split; [|intros; apply Hupd].
            right. split; [apply Hupd | right; rewrite (Hnext _ Hsome); reflexivity].
        + discriminate.
        + injection Hret as ->. inversion Hthread. }
    destruct Hreg' as [Hreg' Hkeep]. split; [exact Hreg'|].
    destruct Hcmd as [Hawait|[Hquiet Hempty]];
      [left; exact Hawait | right; split; [exact Hquiet | apply Hkeep, Hempty]].
  - (* the handler returns *)
    split; [|exact Hcmd].
    destruct s; try contradiction.
    + destruct Hreg as [Hsome _]. split; [exact Hsome | left; reflexivity].
    + destruct Hreg as [[Hsome [h [Hh Hunreg]]]|[Hempty _]].
      * injection Hh as <-. inversion Hunreg.
      * right. split; [exact Hempty | left; reflexivity].
Qed.

Lemma reaches_invariant {A} (R : A -> Prop) (c c' : Config A) :
  reaches env c c' ->
  registry_invariant c /\ command_invariant R c ->
  registry_invariant c' /\ command_invariant R c'.
Proof.
  intros Hreach Hinit. induction Hreach as [c|c1 c2 c3 _ IH Hstep].
  - exact Hinit.
  - apply (step_invariant R c2 c3 Hstep), IH, Hinit.
Qed.

(** [AttachToProcess] past its first test has no way to the return of the
    attached facade. *)
Lemma AttachToProcess_connect_status this pid w s this' w' :
  run (AttachToProcess_connect env this pid) w = Returned (s, this') w' ->
  s <> Attach_AlreadyAttached.
Proof.
  unfold AttachToProcess_connect.
  repeat match goal with
         | |- context [if ?b then _ else _] => destruct b
         | |- context [match ?x with _ => _ end] =>
             match type of x with comres _ => destruct x end
         end;
    simpl; intros H; injection H as <- _ _; discriminate.
Qed.

(** On its own the command thread issues the kill and then stays in the
    wait, for as long as the registry holds a process. *)
Lemma run_TerminateProcess_blocked this pProcess pDebug w :
  m_pProcess this = Some pProcess -> m_pDebug this = Some pDebug ->
  g_process w <> None ->
  run (TerminateProcess this) w = Blocked (log_calls (kill_calls pProcess) w).
Proof.
  intros Hp Hd Hg. unfold TerminateProcess, kill_calls, Stop, WaitProcessExited.
  rewrite Hp, Hd.
  assert (Hwait : forall cs, no_process (log_calls cs w) = false).
  { intros cs. unfold no_process. simpl. destruct (g_process w); [reflexivity|].
    contradiction. }
  repeat run_step. destruct (SUCCEEDED (process_Stop pProcess)).
  - repeat run_step. run_disable. repeat run_step. rewrite Hwait. reflexivity.
  - repeat run_step. rewrite Hwait. reflexivity.
Qed.

(** From any state of a session whose [CreateProcess] has been delivered
    (the handler of another notification may be under way, the exit may
    have been notified already), [TerminateProcess] on an attached facade
    returns only after the exit notification has run, with the registry
    empty. *)
Lemma TerminateProcess_returns_after_exit_from
    (this : Debugger) pProcess pDebug (c0 c : Config (HRESULT * Debugger)) result :
  m_pProcess this = Some pProcess ->
  m_pDebug this = Some pDebug ->
  cmd c0 = TerminateProcess this ->
  registry_invariant c0 ->
  reaches env c0 c ->
  cmd c = Ret result ->
  exit_notified c /\ g_process (world c) = None /\ result = (S_OK, idle).
Proof.
  intros Hp Hd Hcmd0 Hreg0 Hreach Hret.
  destruct (reaches_invariant (eq (S_OK, idle)) _ _ Hreach) as [Hreg Hcmd].
  { split; [exact Hreg0|]. left. rewrite Hcmd0.
    exact (awaits_exit_TerminateProcess this pProcess pDebug Hp Hd). }
  unfold command_invariant in Hcmd. rewrite Hret in Hcmd.
  destruct Hcmd as [Hawait|[Hquiet Hempty]]; [inversion Hawait|].
  inversion Hquiet as [a Ha Heq| | |]; subst a.
  unfold registry_invariant in Hreg. unfold exit_notified.
  destruct (session c).
  - contradiction.
  - destruct Hreg as [Hsome _]. contradiction.
  - destruct Hreg as [[Hsome _]|[_ Hhandler]]; [contradiction|].
    repeat split; try assumption. symmetry. assumption.
Qed.


End Termination.

Lemma reaches_first {A} env (c1 c2 c3 : Config A) :
  step env c1 c2 -> reaches env c2 c3 -> reaches env c1 c3.
Proof.
  intros Hstep Hreach. induction Hreach as [c|c2 c3 c4 _ IH Hnext].
  - apply (reaches_step env c1 c1 c); [apply reaches_here | exact Hstep].
  - apply (reaches_step env c1 c3 c4); [apply IH, Hstep | exact Hnext].
Qed.

Ltac command_atom := eapply reaches_first; [apply step_command, thread_atom|]; cbn.
Ltac command_wait :=
  eapply reaches_first; [apply step_command, thread_wait; reflexivity|]; cbn.
Ltac handler_atom := eapply reaches_first; [apply step_handler, thread_atom|]; cbn.

(** A run of the two threads in which [TerminateProcess] returns: the
    command thread stops the debuggee, disables its breakpoint, kills it and
    waits; the runtime delivers the exit; the handler writes its line, wakes
    the evaluations and empties the registry; the command thread goes on. *)
Lemma Demo_terminates : reaches Demo.env Demo.terminating Demo.terminated.
Proof.
  unfold Demo.terminating. cbn.
  do 5 command_atom.
  eapply reaches_first;
    [apply (step_deliver Demo.env _ Running _ (N_ExitProcess Demo.process) Exited);
     reflexivity|]; cbn.
  do 3 handler_atom.
  eapply reaches_first; [apply step_handled|].
  command_wait.
  do 2 command_atom.
  apply reaches_here.
Qed.



(** * Further properties of the code *)

(** ** The registry *)

(** X1. A session's [CreateProcess] followed by its [ExitProcess] returns
    [S_OK] with the registry empty again, whatever was in it before: the
    process of [CreateProcess] got one [AddRef], one [Continue] and one
    [Release] (the release goes through the registry, not through the
    argument of [ExitProcess]), and the exit line is the only output. *)
Theorem CreateProcess_ExitProcess_round_trip (w : World) pProcess pExited :
  exists w',
    run (ManagedCallback_CreateProcess pProcess ;; ManagedCallback_ExitProcess pExited) w
    = Returned S_OK w'
    /\ g_process w' = None
    /\ g_lastStoppedThreadId w' = g_lastStoppedThreadId w
    /\ calls w' = (calls w ++ [Call_AddRef (process_id pProcess);
                               Call_Continue (Process_controller pProcess) 0;
                               Call_NotifyEvalComplete;
                               Call_Release (process_id pProcess)])%list
    /\ stdout w' = (stdout w ++ "*stopped,reason=" ++ String Chr.DQ "exited"
                    ++ String Chr.DQ ",exit-code=" ++ String Chr.DQ "0"
                    ++ String Chr.DQ (String Chr.LF ""))%string.
Proof.
  eexists. simpl. repeat split.
  simpl. rewrite <- ?List.app_assoc. reflexivity.
Qed.

Section RegistryWait.

Variable env : Collaborators.


End RegistryWait.

Lemma DemoWait_released : reaches Demo.env DemoWait.waiting DemoWait.released.
Proof.
  unfold DemoWait.waiting.
  eapply reaches_first;
    [apply (step_deliver Demo.env _ Running _ (N_ExitProcess Demo.process) Exited);
     reflexivity|]; cbn.
  do 3 handler_atom.
  eapply reaches_first; [apply step_handled|].
  command_wait.
  apply reaches_here.
Qed.


(** ** The safe memory reader, further *)

Section ReaderDiscipline.

Variable env : Collaborators.

Lemma reads_log_ReadMemory p address size w :
  reads (log_call (Call_ReadMemory p address size) w) = S (reads w).
Proof.
  unfold reads. simpl. rewrite List.filter_app, List.length_app. simpl. lia.
Qed.


(** Clearing the low [k] bits of a 64-bit value with the mask
    [2^64 - 2^k]. *)
Lemma land_page_mask (x k : Z) :
  0 <= k <= 64 -> 0 <= x < 2 ^ 64 ->
  Z.land x (2 ^ 64 - 2 ^ k) = x - x mod 2 ^ k.
Proof.
  intros Hk Hx.
  assert (Hmask : 2 ^ 64 - 2 ^ k = Z.shiftl (Z.ones (64 - k)) k).
  { rewrite Z.shiftl_mul_pow2, Z.ones_equiv by lia.
    unfold Z.pred. rewrite Z.mul_add_distr_r, <- Z.pow_add_r by lia.
    replace (64 - k + k) with 64 by lia. lia. }
  assert (Hlow : x - x mod 2 ^ k = Z.shiftl (Z.shiftr x k) k).
  { rewrite Z.shiftl_mul_pow2, Z.shiftr_div_pow2 by lia.
    assert (Hnz : 2 ^ k <> 0) by (apply Z.pow_nonzero; lia).
    pose proof (Z.div_mod x (2 ^ k) Hnz) as Hdm.
    rewrite (Z.mul_comm (x / 2 ^ k)). lia. }
  rewrite Hmask, Hlow. apply Z.bits_inj'. intros n Hn.
  rewrite Z.land_spec, !Z.shiftl_spec by lia.
  destruct (Z.ltb_spec n k) as [Hlt|Hge].
  - rewrite !(Z.testbit_neg_r _ (n - k)) by lia. apply andb_false_r.
  - rewrite Z.shiftr_spec by lia. replace (n - k + k) with n by lia.
    destruct (Z.ltb_spec n 64) as [Hin|Hout].
    + rewrite Z.ones_spec_low by lia. apply andb_true_r.
    + rewrite Z.ones_spec_high by lia. rewrite andb_false_r.
      symmetry. apply Z.bits_above_log2; [lia|].
      destruct (Z.eq_dec x 0) as [->|Hnz]; [simpl; lia|].
      apply Z.log2_lt_pow2; [lia|].
      apply Z.lt_le_trans with (2 ^ 64); [lia | apply Z.pow_le_mono_r; lia].
Qed.

(** X4. With pages of [2^k] bytes, [NextOSPageAddress addr - addr] as a
    [size_t] is the number of bytes from [addr] to the end of its page: at
    least one byte, at most a page, and [addr] plus it is a page boundary,
    also at the top of the address space, where [NextOSPageAddress] wraps.
    Below it, [NextOSPageAddress addr] is the first boundary above [addr].
    When a page is shorter than [2^32] bytes, this distance is the length
    of the second read of [SafeReadMemory], which so ends at the page
    boundary. *)
Theorem NextOSPageAddress_page_end (k addr : Z) :
  OSPageSize env = 2 ^ k ->
  0 <= k < 64 ->
  0 <= addr < 2 ^ 64 ->
  let distance := Int.u64 (NextOSPageAddress env addr - addr) in
  distance = 2 ^ k - addr mod 2 ^ k
  /\ 0 < distance <= 2 ^ k
  /\ (addr + distance) mod 2 ^ k = 0
  /\ (addr + 2 ^ k < 2 ^ 64 ->
      NextOSPageAddress env addr = addr + distance
      /\ addr < NextOSPageAddress env addr
      /\ forall b, addr < b -> b mod 2 ^ k = 0 -> NextOSPageAddress env addr <= b)
  /\ (k < 32 -> fallback_cb env addr = distance).
Proof.
  intros Hpage Hk Haddr.
  assert (Hp : 0 < 2 ^ k) by (apply Z.pow_pos_nonneg; lia).
  assert (Hp64 : 2 ^ k < 2 ^ 64) by (apply Z.pow_lt_mono_r; lia).
  assert (Hdiv : (2 ^ k | 2 ^ 64)).
  { exists (2 ^ (64 - k)). rewrite <- Z.pow_add_r by lia. f_equal. lia. }
  pose proof (Z.mod_pos_bound addr (2 ^ k) Hp) as Hrem.
  assert (Hnext : NextOSPageAddress env addr
                  = (addr + 2 ^ k) mod 2 ^ 64 - addr mod 2 ^ k).
  { unfold NextOSPageAddress. rewrite Hpage. cbv zeta. unfold Int.u64, Int.wrap.
    rewrite (Z.mod_small (2 ^ k - 1)) by lia.
    replace (Z.lnot (2 ^ k - 1)) with (- 2 ^ k) by (unfold Z.lnot; lia).
    replace ((- 2 ^ k) mod 2 ^ 64) with (2 ^ 64 - 2 ^ k).
    2:{ apply Z.mod_unique with (q := -1); lia. }
    rewrite land_page_mask by (try lia; apply Z.mod_pos_bound; lia).
    f_equal. rewrite (Z.mod_mod_divide (addr + 2 ^ k) (2 ^ 64) (2 ^ k) Hdiv).
    rewrite <- Z.add_mod_idemp_r by lia. rewrite Z.mod_same by lia.
    rewrite Z.add_0_r. reflexivity. }
  assert (Hdist : Int.u64 (NextOSPageAddress env addr - addr) = 2 ^ k - addr mod 2 ^ k).
  { rewrite Hnext. unfold Int.u64, Int.wrap.
    replace ((addr + 2 ^ k) mod 2 ^ 64 - addr mod 2 ^ k - addr)
      with ((addr + 2 ^ k) mod 2 ^ 64 + (- (addr mod 2 ^ k) - addr)) by lia.
    rewrite Z.add_mod_idemp_l by lia.
    replace (addr + 2 ^ k + (- (addr mod 2 ^ k) - addr)) with (2 ^ k - addr mod 2 ^ k)
      by lia.
    apply Z.mod_small. lia. }
  cbv zeta. rewrite Hdist. repeat split.
  - lia.
  - lia.
  - replace (addr + (2 ^ k - addr mod 2 ^ k)) with (addr - addr mod 2 ^ k + 1 * 2 ^ k)
      by lia.
    rewrite Z.mod_add by lia.
    rewrite Zminus_mod, Z.mod_mod, Z.sub_diag by lia. apply Z.mod_0_l. lia.
  - rewrite Hnext, Z.mod_small by lia. lia.
  - rewrite Hnext, Z.mod_small by lia. lia.
  - intros b Hb Hbmod. rewrite Hnext, Z.mod_small by lia.
    pose proof (Z.div_mod addr (2 ^ k)) as Hda.
    pose proof (Z.div_mod b (2 ^ k)) as Hdb.
    rewrite Hbmod in Hdb.
    assert (addr / 2 ^ k < b / 2 ^ k) by nia.
    nia.
  - intros Hk32. unfold fallback_cb. rewrite Hdist. unfold Int.u32, Int.wrap.
    apply Z.mod_small.
    assert (2 ^ k < 2 ^ 32) by (apply Z.pow_lt_mono_r; lia). lia.
Qed.

End ReaderDiscipline.

Lemma NextOSPageAddress_page_end_witness :
  let distance := Int.u64 (NextOSPageAddress Demo.env 8195 - 8195) in
  distance = 2 ^ 12 - 8195 mod 2 ^ 12
  /\ 0 < distance <= 2 ^ 12
  /\ (8195 + distance) mod 2 ^ 12 = 0
  /\ (8195 + 2 ^ 12 < 2 ^ 64 ->
      NextOSPageAddress Demo.env 8195 = 8195 + distance
      /\ 8195 < NextOSPageAddress Demo.env 8195
      /\ forall b, 8195 < b -> b mod 2 ^ 12 = 0 -> NextOSPageAddress Demo.env 8195 <= b)
  /\ (12 < 32 -> fallback_cb Demo.env 8195 = distance).
Proof.
  apply (NextOSPageAddress_page_end Demo.env 12 8195); [reflexivity | lia | lia].
Defined.


(** ** Escaping, further *)

Section EscapingFurther.

Local Open Scope string_scope.
Local Open Scope nat_scope.

Lemma occurs_append c a b : occurs c (a ++ b) = occurs c a || occurs c b.
Proof.
  induction a as [|x a IH]; simpl; [reflexivity|].
  rewrite IH. apply orb_assoc.
Qed.

Lemma escape_letter_not_control c m : escape_letter c = Some m -> is_control m = false.
Proof.
  destruct c as [[] [] [] [] [] [] [] []]; simpl; intros H;
    try discriminate; injection H as <-; reflexivity.
Qed.

Lemma occurs_escape_char x c : is_control x = true -> occurs x (escape_char c) = false.
Proof.
  intros Hx. unfold escape_char.
  destruct (escape_letter c) as [m|] eqn:E; cbn [occurs].
  - pose proof (escape_letter_not_control _ _ E) as Hm.
    destruct (Ascii.eqb_spec Chr.BSL x) as [<-|_]; [discriminate Hx|].
    destruct (Ascii.eqb_spec m x) as [->|_]; [congruence | reflexivity].
  - destruct (Ascii.eqb_spec c x) as [->|_]; [|reflexivity].
    unfold is_control, in_escape_set in Hx. rewrite E in Hx. discriminate.
Qed.

Lemma occurs_escaped x s : is_control x = true -> occurs x (escaped s) = false.
Proof.
  intros Hx. induction s as [|c s IH]; simpl; [reflexivity|].
  rewrite occurs_append, IH, (occurs_escape_char x c Hx). reflexivity.
Qed.

(** X5. What [EscapeMIValue] returns holds none of the control characters
    of the escape set (NUL, bell, backspace, tab, newline, vertical tab,
    form feed, carriage return): an escaped value is not cut short by
    [%s] and does not break its line. *)
Theorem EscapeMIValue_no_control_character (s e : string) (x : ascii) :
  EscapeMIValue s = Some e ->
  is_control x = true ->
  occurs x e = false.
Proof.
  rewrite EscapeMIValue_escaped. intros He Hx. injection He as <-.
  apply occurs_escaped, Hx.
Qed.

Lemma size_escape_char c :
  StdString.size (escape_char c) = (if in_escape_set c then 1 else 0) + 1.
Proof.
  unfold escape_char, in_escape_set. destruct (escape_letter c); reflexivity.
Qed.

Lemma size_escaped s : StdString.size (escaped s) = StdString.size s + escapes s.
Proof.
  induction s as [|c s IH]; simpl; [reflexivity|].
  fold (StdString.size s).
  change (String.length (escape_char c ++ escaped s))
    with (StdString.size (escape_char c ++ escaped s)).
  rewrite size_append, size_escape_char, IH. lia.
Qed.

Lemma escapes_le s : escapes s <= StdString.size s.
Proof.
  induction s as [|c s IH]; simpl; [lia|].
  fold (StdString.size s). destruct (in_escape_set c); lia.
Qed.

Lemma escapes_plain s : escapes s = 0 <-> plain s = true.
Proof.
  induction s as [|c s IH]; simpl; [tauto|].
  destruct (in_escape_set c); simpl.
  - split; [lia | discriminate].
  - exact IH.
Qed.

Lemma escapes_escaped s : escapes s <= escapes (escaped s).
Proof.
  induction s as [|c s IH]; simpl; [lia|].
  assert (Happ : forall a b, escapes (a ++ b) = escapes a + escapes b).
  { intros a b. induction a as [|x a IHa]; simpl; [reflexivity|]. rewrite IHa. lia. }
  rewrite Happ. unfold escape_char, in_escape_set.
  destruct (escape_letter c) as [m|]; simpl; [|lia].
  destruct (escape_letter m); lia.
Qed.

(** X6. The length of what [EscapeMIValue] returns is the length of the
    string plus one for each of its characters of the escape set, so at
    most twice the length; escaping a concatenation gives the
    concatenation of the escaped parts; and escaping what has been escaped
    gives it back only when the string had nothing to escape (every
    backslash that escaping put in is escaped again). *)
Theorem EscapeMIValue_length_and_composition (s t : string) :
  exists e f,
    EscapeMIValue s = Some e /\ EscapeMIValue t = Some f
    /\ StdString.size e = StdString.size s + escapes s
    /\ StdString.size s <= StdString.size e <= 2 * StdString.size s
    /\ EscapeMIValue (s ++ t) = Some (e ++ f)
    /\ (EscapeMIValue e = Some e <-> plain s = true).
Proof.
  exists (escaped s), (escaped t).
  rewrite !EscapeMIValue_escaped, escaped_append, size_escaped.
  pose proof (escapes_le s) as Hle.
  repeat split; try lia.
  - intros H. injection H as H.
    assert (Hsize : StdString.size (escaped (escaped s)) = StdString.size (escaped s))
      by (rewrite H; reflexivity).
    rewrite (size_escaped (escaped s)) in Hsize.
    pose proof (escapes_escaped s) as Hgrow.
    apply escapes_plain. lia.
  - intros Hplain. rewrite !(escaped_plain s Hplain). reflexivity.
Qed.

Lemma read_quoted_escape_char c s field after :
  read_quoted s = Some (field, after) ->
  read_quoted (escape_char c ++ s) = Some (escape_char c ++ field, after).
Proof.
  intros H. unfold escape_char.
  destruct (escape_letter c) as [m|] eqn:E; simpl.
  - rewrite H. reflexivity.
  - assert (Hq : Ascii.eqb c Chr.DQ = false).
    { destruct (Ascii.eqb_spec c Chr.DQ) as [->|_]; [discriminate E | reflexivity]. }
    rewrite Hq, (not_escaped_not_backslash c E), H. reflexivity.
Qed.

(** X7. A quoted field that holds what [EscapeMIValue] returned ends where
    its closing quote is: a reader that takes each backslash together with
    the character after it finds the first free quote right behind the
    escaped value, whatever the value and whatever follows on the line. *)
Theorem EscapeMIValue_field_is_framed (s e rest : string) :
  EscapeMIValue s = Some e ->
  read_quoted (e ++ String Chr.DQ rest) = Some (e, rest).
Proof.
  rewrite EscapeMIValue_escaped. intros He. injection He as <-.
  induction s as [|c s IH]; [reflexivity|].
  simpl escaped. rewrite append_assoc.
  apply read_quoted_escape_char, IH.
Qed.

End EscapingFurther.

Lemma EscapeMIValue_no_control_character_witness :
  occurs Chr.LF ("a\nb") = false.
Proof.
  apply (EscapeMIValue_no_control_character ("a" ++ String Chr.LF "b") "a\nb" Chr.LF);
    reflexivity.
Defined.

Lemma EscapeMIValue_field_is_framed_witness :
  read_quoted (("a\" ++ String Chr.DQ "b.dll") ++ String Chr.DQ ",host-name=")
  = Some ("a\" ++ String Chr.DQ "b.dll", ",host-name=").
Proof.
  apply (EscapeMIValue_field_is_framed ("a" ++ String Chr.DQ "b.dll")); reflexivity.
Defined.

(** ** The dispatcher, further *)

Lemma within_bind {A B} rel (m : Prog A) (k : A -> Prog B) :
  within rel m -> (forall a, within rel (k a)) -> within rel (bind m k).
Proof.
  intros H Hk. induction H as [a|upd next Hupd _ IH|cond k' _ IH|]; simpl.
  - apply Hk.
  - apply within_atom; assumption.
  - apply within_wait, IH.
  - apply within_fault.
Qed.

Lemma within_atomic {A} rel (f : World -> A * World) :
  (forall w, rel w (snd (f w))) -> within rel (atomic f).
Proof.
  intros H. apply within_atom; [exact H|]. intros w. apply within_ret.
Qed.

Lemma within_for_each {A} rel (items : list A) (body : A -> Prog unit) :
  (forall x, within rel (body x)) -> within rel (for_each items body).
Proof.
  intros Hbody. induction items as [|x items IH]; simpl.
  - apply within_ret.
  - apply within_bind; [apply Hbody | intros _; exact IH].
Qed.

(** A run ends in a state that a reflexive and transitive [rel] relates
    to the one it started in, however it ends. *)
Lemma within_run {A} (rel : World -> World -> Prop) (m : Prog A) :
  (forall w, rel w w) ->
  (forall w1 w2 w3, rel w1 w2 -> rel w2 w3 -> rel w1 w3) ->
  within rel m ->
  forall w, rel w (final (run m w)).
Proof.
  intros Hrefl Htrans H. induction H as [a|upd next Hupd _ IH|cond k _ IH|];
    intros w; simpl.
  - apply Hrefl.
  - apply (Htrans w (upd w)); [apply Hupd | apply IH].
  - destruct (cond w); [apply IH | apply Hrefl].
  - apply Hrefl.
Qed.

Lemma quiet_within {A} (R : A -> Prop) (m : Prog A) :
  quiet R m -> within same_registry m.
Proof.
  intros H. induction H as [a Ha|upd next Hupd _ IH|cond k _ IH|].
  - apply within_ret.
  - apply within_atom; assumption.
  - apply within_wait, IH.
  - apply within_fault.
Qed.

(** Unfolds the handler at the head of the goal and walks through it:
    [side] settles the condition on each step. *)
Ltac within_steps side :=
  repeat first
    [ apply within_ret
    | apply within_fault
    | apply within_bind; [|intros ?]
    | apply within_atomic; intros ?; side
    | apply within_atom; [intros ?; side | intros ?]
    | match goal with
      | |- within _ (if ?b then _ else _) => destruct b
      | |- within _ (match ?x with _ => _ end) => destruct x
      end ].

Ltac unfold_handler :=
  match goal with
  | |- within _ (?f _ _ _ _ _ _ _) => unfold f
  | |- within _ (?f _ _ _ _ _ _) => unfold f
  | |- within _ (?f _ _ _ _ _) => unfold f
  | |- within _ (?f _ _ _ _) => unfold f
  | |- within _ (?f _ _ _) => unfold f
  | |- within _ (?f _ _) => unfold f
  | |- within _ (?f _) => unfold f
  end.

Section DispatcherFrame.

Variable env : Collaborators.

Lemma within_same_thread_HandleEvent controller eventName :
  within same_thread (ManagedCallback_HandleEvent controller eventName).
Proof.
  unfold ManagedCallback_HandleEvent, Continue, native, out_printf.
  within_steps reflexivity.
Qed.

(** X8. What the handlers leave alone.  The registry is changed by the
    handlers of [CreateProcess] and [ExitProcess] and by no other; the last
    stopped thread is changed by the handlers of [Breakpoint],
    [StepComplete] and [Exception] and by no other.  This holds however
    the handler ends. *)
Theorem dispatch_frame (n : Notification) (w : World) :
  match n with
  | N_CreateProcess _ | N_ExitProcess _ => True
  | _ => g_process (final (run (dispatch env n) w)) = g_process w
  end
  /\ match n with
     | N_Breakpoint _ _ _ | N_StepComplete _ _ _ _ | N_Exception _ _ _ => True
     | _ => g_lastStoppedThreadId (final (run (dispatch env n) w))
            = g_lastStoppedThreadId w
     end.
Proof.
  assert (Hregistry : deliver Running n = Some Running ->
                      g_process (final (run (dispatch env n) w)) = g_process w).
  { intros Hn.
    apply (within_run same_registry (dispatch env n)).
    - intros v. reflexivity.
    - intros w1 w2 w3 H12 H23. unfold same_registry in *. congruence.
    - apply (quiet_within anything), quiet_dispatch, Hn. }
  assert (Hthread : forall m : Prog HRESULT,
             within same_thread m ->
             g_lastStoppedThreadId (final (run m w)) = g_lastStoppedThreadId w).
  { intros m Hm. apply (within_run same_thread m).
    - intros v. reflexivity.
    - intros w1 w2 w3 H12 H23. unfold same_thread in *. congruence.
    - exact Hm. }
  split.
  - destruct n; try exact I; apply Hregistry; reflexivity.
  - destruct n; try exact I; apply Hthread; simpl; try unfold_handler;
      unfold ProcessCreated, NotifyProcessExited, Continue, native, out_printf;
      try (apply within_bind; [apply within_same_thread_HandleEvent
                              | intros ?; apply within_ret]);
      within_steps ltac:(first
        [ reflexivity
        | match goal with
          | |- context [g_process ?v] => destruct (g_process v); reflexivity
          end ]).
Qed.

End DispatcherFrame.

Lemma ends_in_newline_nl : exists body, Fmt.nl = (body ++ Fmt.nl)%string.
Proof. exists "". reflexivity. Qed.

Lemma ends_in_newline_append (a t : string) :
  (exists body, t = (body ++ Fmt.nl)%string) ->
  exists body, (a ++ t)%string = (body ++ Fmt.nl)%string.
Proof.
  intros [body ->]. exists (a ++ body)%string. symmetry. apply append_assoc.
Qed.

Lemma only_appended_refl w : only_appended w w.
Proof.
  split.
  - exists "". split; [symmetry; apply append_empty | left; reflexivity].
  - exists []. symmetry. apply List.app_nil_r.
Qed.

Lemma only_appended_trans w1 w2 w3 :
  only_appended w1 w2 -> only_appended w2 w3 -> only_appended w1 w3.
Proof.
  intros [[t1 [Ht1 Hl1]] [c1 Hc1]] [[t2 [Ht2 Hl2]] [c2 Hc2]]. split.
  - exists (t1 ++ t2)%string. split.
    + rewrite Ht2, Ht1. apply append_assoc.
    + destruct Hl2 as [->|Hl2].
      * rewrite append_empty. exact Hl1.
      * right. apply ends_in_newline_append, Hl2.
  - exists (c1 ++ c2)%list. rewrite Hc2, Hc1. symmetry. apply List.app_assoc.
Qed.

Lemma only_appended_write text w :
  (exists body, text = (body ++ Fmt.nl)%string) -> only_appended w (write_stdout text w).
Proof.
  intros H. split.
  - exists text. split; [reflexivity | right; exact H].
  - exists []. symmetry. apply List.app_nil_r.
Qed.

Lemma only_appended_log c w : only_appended w (log_call c w).
Proof.
  split.
  - exists "". split; [symmetry; apply append_empty | left; reflexivity].
  - exists [c]. reflexivity.
Qed.

Lemma only_appended_set_thread v w : only_appended w (set_g_lastStoppedThreadId v w).
Proof. exact (only_appended_refl w). Qed.

Lemma only_appended_set_process v w : only_appended w (set_g_process v w).
Proof. exact (only_appended_refl w). Qed.

Ltac appended_side :=
  cbn [snd];
  first
    [ apply only_appended_log
    | apply only_appended_set_thread
    | apply only_appended_write;
      repeat first [apply ends_in_newline_nl | apply ends_in_newline_append]
    | apply only_appended_refl
    | match goal with
      | |- context [g_process ?v] =>
          destruct (g_process v);
          [ eapply only_appended_trans;
            [apply only_appended_log | apply only_appended_set_process]
          | apply only_appended_refl ]
      end
    | eapply only_appended_trans;
      [apply only_appended_log | apply only_appended_set_process] ].

Section DispatcherOutput.

Variable env : Collaborators.

Lemma within_only_appended_HandleEvent controller eventName :
  within only_appended (ManagedCallback_HandleEvent controller eventName).
Proof.
  unfold ManagedCallback_HandleEvent, Continue, native, out_printf.
  within_steps appended_side.
Qed.

Lemma within_only_appended_dispatch n : within only_appended (dispatch env n).
Proof.
  destruct n; cbn [dispatch]; try unfold_handler;
    unfold ProcessCreated, NotifyProcessExited, SetLastStoppedThread,
      Continue, native, out_printf;
    try (apply within_bind; [apply within_only_appended_HandleEvent
                            | intros ?; apply within_ret]);
    within_steps appended_side.
Qed.

(** X9. A handler only appends: when it ends, however it ends, the
    standard output is what it was followed by whole lines (nothing, or
    text that ends in a newline), and the call log is what it was followed
    by the calls of the handler. *)
Theorem dispatch_only_appends (n : Notification) (w : World) :
  only_appended w (final (run (dispatch env n) w)).
Proof.
  apply (within_run only_appended (dispatch env n)).
  - apply only_appended_refl.
  - apply only_appended_trans.
  - apply within_only_appended_dispatch.
Qed.

(** X10. A handler never blocks and never reports a failure: it returns
    [S_OK], in every state, but for the handler of [ExitProcess] in a state
    with an empty registry, which runs into the null [g_process]. *)
Theorem dispatch_returns_S_OK (n : Notification) (w : World) :
  (exists w', run (dispatch env n) w = Returned S_OK w')
  \/ (exists pProcess w',
         n = N_ExitProcess pProcess /\ g_process w = None
         /\ run (dispatch env n) w = Faulted w').
Proof.
  destruct n; simpl.
  all: try (left; eexists; reflexivity).
  - (* Exception *)
    left. unfold ManagedCallback_Exception.
    destruct (truth unhandled); [eexists; reflexivity|].
    destruct (GetExceptionInfo env pThread) as [[hr excType] excModule].
    eexists; reflexivity.
  - (* ExitProcess *)
    unfold ManagedCallback_ExitProcess. simpl.
    destruct (g_process w) eqn:Hg.
    + left. eexists. reflexivity.
    + right. do 2 eexists. repeat split.
  - (* LoadModule *)
    left. unfold ManagedCallback_LoadModule. rewrite EscapeMIValue_escaped.
    destruct (symbols_symbolsLoaded (TryLoadModuleSymbols env pModule));
      eexists; reflexivity.
Qed.

End DispatcherOutput.

Section DispatcherResume.

Variable env : Collaborators.

Ltac no_calls :=
  exists []; split; [simpl; symmetry; apply List.app_nil_r|];
  split; [reflexivity|]; split; intros; try discriminate; reflexivity.


(** X11. Whether a handler resumes the debuggee.  The calls of a handler
    hold at most one [Continue], and when they hold one it is the last
    call and its [fIsOutOfBand] is zero.  The handler resumes exactly for
    the notifications that are not [left_suspended]: so not for a
    breakpoint, a completed step, an unhandled exception, the result of an
    evaluation, the exit of the process, an error of the debugger or a
    notification that is only acknowledged (as [UnloadAssembly],
    [NameChange] or [ControlCTrap]). *)
Theorem dispatch_resume_table (n : Notification) (w : World) :
  exists cs,
    calls (final (run (dispatch env n) w)) = (calls w ++ cs)%list
    /\ resumes_at_most_once_at_the_end cs = true
    /\ (left_suspended n = true -> List.filter is_Continue cs = [])
    /\ (left_suspended n = false ->
        exists controller, List.filter is_Continue cs = [Call_Continue controller 0]).
Proof.
  destruct n; simpl dispatch.
  all: try solve [no_calls].
  all: try solve [eexists; split; [simpl; rewrite <- ?List.app_assoc; reflexivity|];
                  split; [reflexivity|]; split; intros H;
                  [try discriminate H; reflexivity
                  | try discriminate H; eexists; reflexivity]].
  - (* Exception *)
    unfold ManagedCallback_Exception, left_suspended.
    destruct (truth unhandled).
    + exists []. split; [simpl; symmetry; apply List.app_nil_r|].
      split; [reflexivity|]. split; [reflexivity | discriminate].
    + destruct (GetExceptionInfo env pThread) as [[hr excType] excModule].
      eexists. split; [simpl; reflexivity|].
      split; [reflexivity|]. split; [discriminate|]. intros _. eexists. reflexivity.
  - (* ExitProcess *)
    unfold ManagedCallback_ExitProcess. simpl.
    destruct (g_process w).
    + eexists. split; [simpl; rewrite <- ?List.app_assoc; reflexivity|].
      split; [reflexivity|]. split; [reflexivity | discriminate].
    + eexists. split; [simpl; reflexivity|].
      split; [reflexivity|]. split; [reflexivity | discriminate].
  - (* LoadModule *)
    unfold ManagedCallback_LoadModule. rewrite EscapeMIValue_escaped.
    destruct (symbols_symbolsLoaded (TryLoadModuleSymbols env pModule)).
    + eexists. split; [simpl; rewrite <- ?List.app_assoc; reflexivity|].
      split; [reflexivity|]. split; [discriminate|]. intros _. eexists. reflexivity.
    + eexists. split; [simpl; reflexivity|].
      split; [reflexivity|]. split; [discriminate|]. intros _. eexists. reflexivity.
Qed.

End DispatcherResume.

(** ** The library-loaded line *)

Section LibraryLoaded.

Variable env : Collaborators.

Lemma occurs_decimal c d :
  occurs c "0123456789" = false ->
  occurs c (DecimalString.NilEmpty.string_of_uint d) = false.
Proof.
  intros H. cbn [occurs] in H.
  repeat (apply orb_false_elim in H; destruct H as [? H]).
  induction d; cbn [DecimalString.NilEmpty.string_of_uint occurs];
    [reflexivity | ..]; rewrite IHd, orb_false_r; assumption.
Qed.

Lemma occurs_Fmt_u c x : occurs c "0123456789" = false -> occurs c (Fmt.u x) = false.
Proof.
  intros H. unfold Fmt.u, DecimalString.NilZero.string_of_uint.
  destruct (N.to_uint (Z.to_N x)) eqn:E; try (rewrite <- E; apply occurs_decimal, H).
  cbn [occurs] in H |- *.
  apply orb_false_elim in H. destruct H as [H _]. rewrite H. reflexivity.
Qed.

Lemma occurs_hexadecimal c d :
  occurs c "0123456789abcdef" = false ->
  occurs c (HexadecimalString.NilEmpty.string_of_uint d) = false.
Proof.
  intros H. cbn [occurs] in H.
  repeat (apply orb_false_elim in H; destruct H as [? H]).
  induction d; cbn [HexadecimalString.NilEmpty.string_of_uint occurs];
    [reflexivity | ..]; rewrite IHd, orb_false_r; assumption.
Qed.

Lemma occurs_Fmt_hex c x :
  occurs c "0123456789abcdef" = false -> occurs c (Fmt.hex x) = false.
Proof.
  intros H. unfold Fmt.hex, HexadecimalString.NilZero.string_of_uint.
  destruct (N.to_hex_uint (Z.to_N x)) eqn:E;
    try (rewrite <- E; apply occurs_hexadecimal, H).
  cbn [occurs] in H |- *.
  apply orb_false_elim in H. destruct H as [H _]. rewrite H. reflexivity.
Qed.

Lemma c_str_without_NUL s : occurs Chr.NUL s = false -> StdString.c_str s = s.
Proof.
  induction s as [|a s IH]; cbn [occurs StdString.c_str]; [reflexivity|].
  intros H. apply orb_false_elim in H. destruct H as [Ha Hs].
  rewrite Ha, (IH Hs). reflexivity.
Qed.

(** X12. When the id that [TryLoadModuleSymbols] gives holds no NUL and no
    newline, the handler of a loaded module returns [S_OK] with exactly one
    line added to the output, whatever the name of the module: the line
    [=library-loaded,id="{<id>}",target-name="<name>",host-name="<name>",symbols-loaded="<0|1>",base-address="0x<hex>",size="<dec>"]
    with the name as [EscapeMIValue] returns it; nothing of it is cut off,
    and it holds no newline before its end. *)
Theorem LoadModule_writes_one_line (pAppDomain : ICorDebugAppDomain)
    (pModule : ICorDebugModule) (w : World) :
  let loaded := TryLoadModuleSymbols env pModule in
  occurs Chr.NUL (symbols_id loaded) = false ->
  occurs Chr.LF (symbols_id loaded) = false ->
  exists name line w',
    EscapeMIValue (symbols_name loaded) = Some name
    /\ line = ("=library-loaded,id=" ++ Fmt.dq ++ "{" ++ symbols_id loaded ++ "}" ++ Fmt.dq
               ++ ",target-name=" ++ Fmt.dq ++ name ++ Fmt.dq
               ++ ",host-name=" ++ Fmt.dq ++ name ++ Fmt.dq
               ++ ",symbols-loaded=" ++ Fmt.dq
               ++ Fmt.b (symbols_symbolsLoaded loaded) ++ Fmt.dq
               ++ ",base-address=" ++ Fmt.dq ++ "0x"
               ++ Fmt.hex (Int.u64 (symbols_baseAddress loaded)) ++ Fmt.dq
               ++ ",size=" ++ Fmt.dq ++ Fmt.u (Int.u32 (symbols_size loaded)) ++ Fmt.dq
               ++ Fmt.nl)%string
    /\ one_line line
    /\ run (ManagedCallback_LoadModule env pAppDomain pModule) w = Returned S_OK w'
    /\ stdout w' = (stdout w ++ line)%string.
Proof.
  cbv zeta. intros Hnul Hlf.
  pose proof (occurs_escaped Chr.NUL (symbols_name (TryLoadModuleSymbols env pModule))
                eq_refl) as Hname_nul.
  pose proof (occurs_escaped Chr.LF (symbols_name (TryLoadModuleSymbols env pModule))
                eq_refl) as Hname_lf.
  assert (Hb : forall c b, occurs c "01" = false -> occurs c (Fmt.b b) = false).
  { intros c b H. cbn [occurs] in H.
    repeat (apply orb_false_elim in H; destruct H as [? H]).
    destruct b; cbn [Fmt.b occurs]; rewrite orb_false_r; assumption. }
  assert (Hrun : exists w',
             run (ManagedCallback_LoadModule env pAppDomain pModule) w = Returned S_OK w'
             /\ stdout w' = stdout (final (run (ManagedCallback_LoadModule env pAppDomain
                                                  pModule) w))).
  { unfold ManagedCallback_LoadModule. rewrite EscapeMIValue_escaped.
    destruct (symbols_symbolsLoaded (TryLoadModuleSymbols env pModule));
      eexists; split; reflexivity. }
  destruct Hrun as [w' [Hrun Hout]].
  exists (escaped (symbols_name (TryLoadModuleSymbols env pModule))).
  eexists. exists w'.
  split; [apply EscapeMIValue_escaped|]. split; [reflexivity|]. split.
  - eexists. split.
    + rewrite <- !append_assoc. reflexivity.
    + rewrite !occurs_append, Hlf, Hname_lf.
      rewrite (Hb Chr.LF _ eq_refl), (occurs_Fmt_hex Chr.LF _ eq_refl),
        (occurs_Fmt_u Chr.LF _ eq_refl).
      reflexivity.
  - split; [exact Hrun|]. rewrite Hout.
    unfold ManagedCallback_LoadModule. rewrite EscapeMIValue_escaped.
    match goal with
    | |- context [Fmt.s ?ss] =>
        assert (Hss : Fmt.s ss = ss)
    end.
    { apply c_str_without_NUL.
      rewrite !occurs_append, Hnul, Hname_nul.
      rewrite (Hb Chr.NUL _ eq_refl), (occurs_Fmt_hex Chr.NUL _ eq_refl),
        (occurs_Fmt_u Chr.NUL _ eq_refl).
      reflexivity. }
    rewrite Hss.
    destruct (symbols_symbolsLoaded (TryLoadModuleSymbols env pModule));
      cbn [run final bind atomic out_printf native Continue fst snd
           stdout log_call write_stdout];
      f_equal; rewrite !append_assoc; reflexivity.
Qed.

End LibraryLoaded.

Lemma LoadModule_writes_one_line_witness :
  exists name line w',
    EscapeMIValue ("a" ++ String Chr.DQ "b.dll") = Some name
    /\ line = ("=library-loaded,id=" ++ Fmt.dq ++ "{" ++ "0f1e" ++ "}" ++ Fmt.dq
               ++ ",target-name=" ++ Fmt.dq ++ name ++ Fmt.dq
               ++ ",host-name=" ++ Fmt.dq ++ name ++ Fmt.dq
               ++ ",symbols-loaded=" ++ Fmt.dq ++ Fmt.b true ++ Fmt.dq
               ++ ",base-address=" ++ Fmt.dq ++ "0x" ++ Fmt.hex (Int.u64 4096) ++ Fmt.dq
               ++ ",size=" ++ Fmt.dq ++ Fmt.u (Int.u32 512) ++ Fmt.dq
               ++ Fmt.nl)%string
    /\ one_line line
    /\ run (ManagedCallback_LoadModule Demo.env Demo.appdomain Demo.module) Demo.start
       = Returned S_OK w'
    /\ stdout w' = (stdout Demo.start ++ line)%string.
Proof.
  apply (LoadModule_writes_one_line Demo.env Demo.appdomain Demo.module Demo.start);
    reflexivity.
Defined.

(** ** Breakpoints and steppers *)

Lemma Forall_quiesces_appdomain_calls pAppDomain :
  List.Forall quiesces (appdomain_calls pAppDomain).
Proof.
  unfold appdomain_calls.
  apply List.Forall_app; split; [|apply List.Forall_app; split].
  - destruct (appdomain_EnumerateBreakpoints pAppDomain) as [bps|]; [|constructor].
    apply List.Forall_map, List.Forall_forall. intros b _. right. left. eexists. reflexivity.
  - constructor; [left; reflexivity | constructor].
  - destruct (appdomain_EnumerateSteppers pAppDomain) as [sts|]; [|constructor].
    apply List.Forall_map, List.Forall_forall. intros s _. right. right. eexists. reflexivity.
Qed.

Lemma DeleteAllBreakpoints_once_per_appdomain pAppDomain :
  List.length (List.filter is_DeleteAllBreakpoints (appdomain_calls pAppDomain)) = 1%nat.
Proof.
  unfold appdomain_calls. rewrite !List.filter_app, !List.length_app.
  assert (Hb : forall bps : list ICorDebugBreakpoint,
             List.filter is_DeleteAllBreakpoints
               (List.map (fun b => Call_Activate (breakpoint_id b) FALSE) bps) = []).
  { induction bps; simpl; [reflexivity | assumption]. }
  assert (Hs : forall sts : list ICorDebugStepper,
             List.filter is_DeleteAllBreakpoints
               (List.map (fun s => Call_Deactivate (stepper_id s)) sts) = []).
  { induction sts; simpl; [reflexivity | assumption]. }
  destruct (appdomain_EnumerateBreakpoints pAppDomain);
    destruct (appdomain_EnumerateSteppers pAppDomain);
    rewrite ?Hb, ?Hs; reflexivity.
Qed.

(** X13. [DisableAllBreakpointsAndSteppers] always returns, and changes
    nothing but the call log.  Its calls are [Activate(FALSE)],
    [DeleteAllBreakpoints] and [Deactivate] and no other (it does not
    resume, detach or kill).  When the app domains cannot be enumerated it
    returns that failure without a call.  Otherwise it returns [S_OK],
    whatever the enumerations inside a domain answer: every breakpoint and
    every stepper that a domain hands out is taken out of action, and
    [DeleteAllBreakpoints] is called once for each domain. *)
Theorem DisableAllBreakpointsAndSteppers_quiesces (pProcess : ICorDebugProcess) (w : World) :
  exists Status cs,
    run (DisableAllBreakpointsAndSteppers pProcess) w = Returned Status (log_calls cs w)
    /\ List.Forall quiesces cs
    /\ match process_EnumerateAppDomains pProcess with
       | CErr failure => Status = failure /\ cs = []
       | COk domains =>
           Status = S_OK
           /\ List.length (List.filter is_DeleteAllBreakpoints cs) = List.length domains
           /\ forall pAppDomain, List.In pAppDomain domains ->
                (forall breakpoints pBreakpoint,
                    appdomain_EnumerateBreakpoints pAppDomain = COk breakpoints ->
                    List.In pBreakpoint breakpoints ->
                    List.In (Call_Activate (breakpoint_id pBreakpoint) FALSE) cs)
                /\ (forall steppers pStepper,
                       appdomain_EnumerateSteppers pAppDomain = COk steppers ->
                       List.In pStepper steppers ->
                       List.In (Call_Deactivate (stepper_id pStepper)) cs)
       end.
Proof.
  unfold DisableAllBreakpointsAndSteppers.
  destruct (process_EnumerateAppDomains pProcess) as [domains|failure] eqn:E.
  - exists S_OK, (List.flat_map appdomain_calls domains).
    split; [rewrite run_bind, run_for_each_appdomain; reflexivity|].
    split; [|split; [reflexivity|split]].
    + apply List.Forall_flat_map, List.Forall_forall. intros d _.
      apply Forall_quiesces_appdomain_calls.
    + clear E. induction domains as [|d domains IH]; [reflexivity|].
      simpl. rewrite List.filter_app, List.length_app,
        DeleteAllBreakpoints_once_per_appdomain, IH. reflexivity.
    + intros d Hd. split.
      * intros bps b Hbps Hb. apply List.in_flat_map. exists d. split; [exact Hd|].
        unfold appdomain_calls. rewrite Hbps. apply List.in_or_app. left.
        apply (List.in_map (fun b => Call_Activate (breakpoint_id b) FALSE)), Hb.
      * intros sts s Hsts Hs. apply List.in_flat_map. exists d. split; [exact Hd|].
        unfold appdomain_calls. rewrite Hsts.
        apply List.in_or_app. right. apply List.in_or_app. right.
        apply (List.in_map (fun s => Call_Deactivate (stepper_id s))), Hs.
  - exists failure, []. split; [simpl; rewrite log_calls_nil; reflexivity|].
    split; [constructor | split; reflexivity].
Qed.

(** ** The facade, further *)

Section FacadeFurther.

Variable env : Collaborators.

(** X14. [DetachFromProcess] and [TerminateProcess] on a facade that is
    not attached (one of its two fields is null) fail with [E_FAIL] and do
    nothing: no call is issued, the facade and the state are as before,
    and [TerminateProcess] does not wait. *)
Theorem not_attached_E_FAIL (this : Debugger) (w : World) :
  m_pProcess this = None \/ m_pDebug this = None ->
  run (DetachFromProcess this) w = Returned (E_FAIL, this) w
  /\ run (TerminateProcess this) w = Returned (E_FAIL, this) w
  /\ FAILED E_FAIL = true.
Proof.
  intros H. split; [|split; [exact (run_TerminateProcess_not_attached this w H)|reflexivity]].
  unfold DetachFromProcess. destruct H as [H|H]; rewrite H.
  - reflexivity.
  - destruct (m_pProcess this); reflexivity.
Qed.

(** X15. [DetachFromProcess] does not unregister the process: after it
    has returned, the registry holds what it held, so that with a process
    registered [SafeReadMemory] still reads from that process, and
    [WaitProcessExited] still blocks. *)
Theorem DetachFromProcess_keeps_registry (this : Debugger) pProcess pDebug (w : World) :
  m_pProcess this = Some pProcess ->
  m_pDebug this = Some pDebug ->
  exists w',
    run (DetachFromProcess this) w = Returned (S_OK, idle) w'
    /\ g_process w' = g_process w
    /\ forall registered, g_process w = Some registered ->
         run WaitProcessExited w' = Blocked w'
         /\ forall offset cb,
              exists more,
                calls (snd (SafeReadMemory_locked env offset cb w'))
                = (calls w' ++ Call_ReadMemory (process_id registered) offset cb :: more)%list.
Proof.
  intros Hp Hd. eexists. split; [exact (run_DetachFromProcess this pProcess pDebug w Hp Hd)|].
  split; [reflexivity|]. intros registered Hreg. split.
  - simpl. unfold no_process. simpl. rewrite Hreg. reflexivity.
  - intros offset cb. unfold SafeReadMemory_locked, ReadMemory.
    cbn [g_process log_calls]. rewrite Hreg.
    destruct (negb _); eexists; simpl; rewrite <- ?List.app_assoc; reflexivity.
Qed.

End FacadeFurther.

Lemma not_attached_E_FAIL_witness :
  run (DetachFromProcess idle) Demo.start = Returned (E_FAIL, idle) Demo.start
  /\ run (TerminateProcess idle) Demo.start = Returned (E_FAIL, idle) Demo.start
  /\ FAILED E_FAIL = true.
Proof.
  apply (not_attached_E_FAIL idle Demo.start). left. reflexivity.
Defined.

Lemma DetachFromProcess_keeps_registry_witness :
  exists w',
    run (DetachFromProcess Demo.attached) Demo.registered = Returned (S_OK, idle) w'
    /\ g_process w' = Some Demo.process
    /\ forall registered, Some Demo.process = Some registered ->
         run WaitProcessExited w' = Blocked w'
         /\ forall offset cb,
              exists more,
                calls (snd (SafeReadMemory_locked Demo.env offset cb w'))
                = (calls w' ++ Call_ReadMemory (process_id registered) offset cb :: more)%list.
Proof.
  exact (DetachFromProcess_keeps_registry Demo.env Demo.attached Demo.process Demo.cordebug
           Demo.registered eq_refl eq_refl).
Defined.

(** ** Attaching *)

(** Splits a membership in an explicit list and drops the cases of another
    constructor. *)
Ltac in_cases H :=
  repeat (destruct H as [H|H]; [try discriminate H|]); try contradiction.

Ltac early_failure :=
  split; [discriminate|]; split; [reflexivity|]; split;
  [ intros _ d H; simpl in H; in_cases H
  | intros d H; simpl in H; in_cases H ].

Section Attaching.

Variable env : Collaborators.

(** What [AttachToProcess] does from [GetCoreCLRPath] on, in every case. *)
Lemma AttachToProcess_connect_outcome (this : Debugger) (pid : Z) (w : World) :
  exists s this' cs,
    run (AttachToProcess_connect env this pid) w = Returned (s, this') (log_calls cs w)
    /\ (s = Attach_S_OK ->
        exists pCorDebug pProcess,
          this' = {| m_pProcess := Some pProcess; m_pDebug := Some pCorDebug |}
          /\ cordebug_DebugActiveProcess pCorDebug (Int.u32 pid) = COk pProcess
          /\ cs = [Call_SetCoreCLRPath (GetCoreCLRPath env pid);
                   Call_Initialize (cordebug_id pCorDebug);
                   Call_SetManagedHandler (cordebug_id pCorDebug);
                   Call_DebugActiveProcess (cordebug_id pCorDebug) (Int.u32 pid)])
    /\ (s <> Attach_S_OK -> this' = this)
    /\ (s <> Attach_S_OK ->
        forall d, List.In (Call_SetManagedHandler d) cs ->
                  exists before, cs = (before ++ [Call_CorDebugTerminate d])%list)
    /\ (forall d, List.In (Call_CorDebugTerminate d) cs ->
                  s <> Attach_S_OK /\ List.In (Call_SetManagedHandler d) cs).
Proof.
  unfold AttachToProcess_connect.
  destruct (StdString.size (GetCoreCLRPath env pid) =? 0)%nat.
  { exists Attach_RuntimeNotFound, this, []. rewrite log_calls_nil.
    repeat split; try discriminate; try (intros; contradiction). }
  destruct (CreateVersionStringFromModule env (Int.u32 pid) (Fmt.s (GetCoreCLRPath env pid)))
    as [pBuffer|Status].
  2:{ eexists _, this, _. split; [repeat run_step; reflexivity|]. early_failure. }
  destruct (CreateDebuggingInterfaceFromVersionEx env 4 pBuffer) as [pCordb|Status].
  2:{ eexists _, this, _. split; [repeat run_step; reflexivity|]. early_failure. }
  destruct (cordb_QueryInterface pCordb) as [pCorDebug|Status].
  2:{ eexists _, this, _. split; [repeat run_step; reflexivity|]. early_failure. }
  destruct (FAILED (cordebug_Initialize pCorDebug)).
  { eexists _, this, _. split; [repeat run_step; reflexivity|]. early_failure. }
  destruct (FAILED (cordebug_SetManagedHandler pCorDebug)).
  { eexists _, this, _. split; [repeat run_step; reflexivity|].
    split; [discriminate|]. split; [reflexivity|]. split.
    - intros _ d H. simpl in H. in_cases H. injection H as <-.
      exists [Call_SetCoreCLRPath (GetCoreCLRPath env pid);
              Call_Initialize (cordebug_id pCorDebug);
              Call_SetManagedHandler (cordebug_id pCorDebug)]. reflexivity.
    - intros d H. simpl in H. in_cases H. injection H as <-.
      split; [discriminate|]. simpl. tauto. }
  destruct (cordebug_DebugActiveProcess pCorDebug (Int.u32 pid)) as [pProcess|Status] eqn:Hattach.
  - eexists _, _, _. split; [repeat run_step; reflexivity|].
    split; [|split; [|split]].
    + intros _. exists pCorDebug, pProcess. repeat split. exact Hattach.
    + intros H. contradiction H. reflexivity.
    + intros H. contradiction H. reflexivity.
    + intros d H. simpl in H. in_cases H.
  - eexists _, this, _. split; [repeat run_step; reflexivity|].
    split; [discriminate|]. split; [reflexivity|]. split.
    + intros _ d H. simpl in H. in_cases H. injection H as <-.
      exists [Call_SetCoreCLRPath (GetCoreCLRPath env pid);
              Call_Initialize (cordebug_id pCorDebug);
              Call_SetManagedHandler (cordebug_id pCorDebug);
              Call_DebugActiveProcess (cordebug_id pCorDebug) (Int.u32 pid)]. reflexivity.
    + intros d H. simpl in H. in_cases H. injection H as <-.
      split; [discriminate|]. simpl. tauto.
Qed.

(** X16. [AttachToProcess] on a facade that is not attached returns, and
    has then issued calls only: the registry, the output and the last
    stopped thread are as before.  With [S_OK] the facade holds the
    process that [DebugActiveProcess] delivered for the process id as a
    [DWORD] (the [int] modulo [2^32]) and the interface that delivered
    it, and the calls were the four of the straight path, with no
    [Terminate]; with every other status the facade is as it was.  A
    debugging interface whose [SetManagedHandler] was called in a failed
    attach has had [Terminate] called as the last call, and [Terminate]
    is called on no other.  The status is never the one of an attached
    debugger. *)
Theorem AttachToProcess_outcome (this : Debugger) (pid : Z) (w : World) :
  attached_flag this = false ->
  exists s this' cs,
    run (AttachToProcess env this pid) w = Returned (s, this') (log_calls cs w)
    /\ (s = Attach_S_OK ->
        exists pCorDebug pProcess,
          this' = {| m_pProcess := Some pProcess; m_pDebug := Some pCorDebug |}
          /\ cordebug_DebugActiveProcess pCorDebug (Int.u32 pid) = COk pProcess
          /\ cs = [Call_SetCoreCLRPath (GetCoreCLRPath env pid);
                   Call_Initialize (cordebug_id pCorDebug);
                   Call_SetManagedHandler (cordebug_id pCorDebug);
                   Call_DebugActiveProcess (cordebug_id pCorDebug) (Int.u32 pid)])
    /\ (s <> Attach_S_OK -> this' = this)
    /\ (s <> Attach_S_OK ->
        forall d, List.In (Call_SetManagedHandler d) cs ->
                  exists before, cs = (before ++ [Call_CorDebugTerminate d])%list)
    /\ (forall d, List.In (Call_CorDebugTerminate d) cs ->
                  s <> Attach_S_OK /\ List.In (Call_SetManagedHandler d) cs)
    /\ s <> Attach_AlreadyAttached.
Proof.
  intros Hflag. unfold AttachToProcess. rewrite Hflag.
  destruct (AttachToProcess_connect_outcome this pid w)
    as (s & this' & cs & Hrun & Hok & Hfail & Hterminated & Hterminate).
  exists s, this', cs. repeat split; try assumption.
  - apply Hterminate in H. apply H.
  - apply Hterminate in H. apply H.
  - exact (AttachToProcess_connect_status env _ _ _ _ _ _ Hrun).
Qed.

(** X17. [AttachToProcess] on a facade that holds a process of an earlier
    session.  While that process is registered the call fails with
    [E_FAIL] and does nothing.  Once the registry is empty the call first
    terminates the earlier session, without waiting, and then attaches as
    from a facade that was never attached. *)
Theorem AttachToProcess_again (this : Debugger) pProcess pDebug (pid : Z) (w : World) :
  m_pProcess this = Some pProcess ->
  m_pDebug this = Some pDebug ->
  match g_process w with
  | Some _ =>
      run (AttachToProcess env this pid) w = Returned (Attach_AlreadyAttached, this) w
      /\ HRESULT_of Attach_AlreadyAttached = E_FAIL
  | None =>
      run (AttachToProcess env this pid) w
      = run (AttachToProcess env idle pid) (log_calls (terminate_calls pProcess pDebug) w)
  end.
Proof.
  intros Hp Hd.
  assert (Hflag : attached_flag this = true).
  { unfold attached_flag. rewrite Hp. reflexivity. }
  unfold AttachToProcess. rewrite Hflag. cbn [attached_flag idle m_pProcess m_pDebug].
  rewrite run_bind. cbn [run atomic]. destruct (g_process w) eqn:Hg.
  - split; reflexivity.
  - cbn [fst snd]. rewrite run_bind.
    rewrite (run_TerminateProcess this pProcess pDebug w Hp Hd Hg). reflexivity.
Qed.

(** X18. The two fields of the facade are set together and cleared
    together: whatever [AttachToProcess], [DetachFromProcess] and
    [TerminateProcess] return from a facade of which this holds, it holds
    of the facade afterwards. *)
Theorem facade_both_or_neither (this : Debugger) (pid : Z) (w : World) :
  both_or_neither this ->
  (forall s this' w',
     run (AttachToProcess env this pid) w = Returned (s, this') w' -> both_or_neither this')
  /\ (forall hr this' w',
        run (DetachFromProcess this) w = Returned (hr, this') w' -> both_or_neither this')
  /\ (forall hr this' w',
        run (TerminateProcess this) w = Returned (hr, this') w' -> both_or_neither this').
Proof.
  intros Hthis.
  assert (Hconnect : forall this0 v s this' w',
             both_or_neither this0 ->
             run (AttachToProcess_connect env this0 pid) v = Returned (s, this') w' ->
             both_or_neither this').
  { intros this0 v s this' w' H0 Hrun.
    destruct (AttachToProcess_connect_outcome this0 pid v)
      as (s0 & this0' & cs & Hrun0 & Hok & Hfail & _).
    rewrite Hrun0 in Hrun. injection Hrun as <- <- _.
    destruct s0; try (rewrite Hfail; [exact H0|discriminate]).
    destruct (Hok eq_refl) as (d & p & -> & _). split; discriminate. }
  assert (Hidle : both_or_neither idle) by (split; reflexivity).
  destruct this as [[pProcess|] [pDebug|]]; unfold both_or_neither in Hthis; cbn in Hthis;
    try (exfalso; destruct Hthis as [H1 H2]; (discriminate (H1 eq_refl) || discriminate (H2 eq_refl))).
  - split; [|split].
    + intros s this' w'. unfold AttachToProcess. cbn [attached_flag m_pProcess m_pDebug].
      rewrite run_bind. cbn [run atomic]. destruct (g_process w) eqn:Hg.
      * cbn [run fst snd]. intros H. injection H as _ <- _. split; discriminate.
      * cbn [fst snd]. rewrite run_bind.
        rewrite (run_TerminateProcess {| m_pProcess := Some pProcess; m_pDebug := Some pDebug |} pProcess pDebug w eq_refl eq_refl Hg).
        cbn [snd]. apply Hconnect. exact Hidle.
    + intros hr this' w'.
      rewrite (run_DetachFromProcess {| m_pProcess := Some pProcess; m_pDebug := Some pDebug |} pProcess pDebug w eq_refl eq_refl).
      intros H. injection H as _ <- _. exact Hidle.
    + intros hr this' w'. destruct (g_process w) eqn:Hg.
      * rewrite (run_TerminateProcess_blocked {| m_pProcess := Some pProcess; m_pDebug := Some pDebug |} pProcess pDebug w eq_refl eq_refl);
          [discriminate|]. rewrite Hg. discriminate.
      * rewrite (run_TerminateProcess {| m_pProcess := Some pProcess; m_pDebug := Some pDebug |} pProcess pDebug w eq_refl eq_refl Hg).
        intros H. injection H as _ <- _. exact Hidle.
  - split; [|split].
    + intros s this' w'. unfold AttachToProcess. cbn [attached_flag m_pProcess m_pDebug].
      apply Hconnect. exact Hidle.
    + intros hr this' w' H. cbn in H. injection H as _ <- _. exact Hidle.
    + intros hr this' w' H. cbn in H. injection H as _ <- _. exact Hidle.
Qed.

End Attaching.

Lemma AttachToProcess_outcome_witness :
  exists s this' cs,
    run (AttachToProcess DemoAttach.env idle (-1)) Demo.start
    = Returned (s, this') (log_calls cs Demo.start)
    /\ (s = Attach_S_OK ->
        exists pCorDebug pProcess,
          this' = {| m_pProcess := Some pProcess; m_pDebug := Some pCorDebug |}
          /\ cordebug_DebugActiveProcess pCorDebug (Int.u32 (-1)) = COk pProcess
          /\ cs = [Call_SetCoreCLRPath (GetCoreCLRPath DemoAttach.env (-1));
                   Call_Initialize (cordebug_id pCorDebug);
                   Call_SetManagedHandler (cordebug_id pCorDebug);
                   Call_DebugActiveProcess (cordebug_id pCorDebug) (Int.u32 (-1))])
    /\ (s <> Attach_S_OK -> this' = idle)
    /\ (s <> Attach_S_OK ->
        forall d, List.In (Call_SetManagedHandler d) cs ->
                  exists before, cs = (before ++ [Call_CorDebugTerminate d])%list)
    /\ (forall d, List.In (Call_CorDebugTerminate d) cs ->
                  s <> Attach_S_OK /\ List.In (Call_SetManagedHandler d) cs)
    /\ s <> Attach_AlreadyAttached.
Proof.
  exact (AttachToProcess_outcome DemoAttach.env idle (-1) Demo.start eq_refl).
Defined.

Lemma AttachToProcess_again_witness :
  (run (AttachToProcess DemoAttach.env Demo.attached 42) Demo.registered
   = Returned (Attach_AlreadyAttached, Demo.attached) Demo.registered
   /\ HRESULT_of Attach_AlreadyAttached = E_FAIL)
  /\ run (AttachToProcess DemoAttach.env Demo.attached 42) Demo.start
     = run (AttachToProcess DemoAttach.env idle 42)
           (log_calls (terminate_calls Demo.process Demo.cordebug) Demo.start).
Proof.
  split.
  - exact (AttachToProcess_again DemoAttach.env Demo.attached Demo.process Demo.cordebug 42
             Demo.registered eq_refl eq_refl).
  - exact (AttachToProcess_again DemoAttach.env Demo.attached Demo.process Demo.cordebug 42
             Demo.start eq_refl eq_refl).
Defined.

Lemma facade_both_or_neither_witness :
  (forall s this' w',
     run (AttachToProcess DemoAttach.env Demo.attached 42) Demo.start = Returned (s, this') w' ->
     both_or_neither this')
  /\ (forall hr this' w',
        run (DetachFromProcess Demo.attached) Demo.start = Returned (hr, this') w' ->
        both_or_neither this')
  /\ (forall hr this' w',
        run (TerminateProcess Demo.attached) Demo.start = Returned (hr, this') w' ->
        both_or_neither this').
Proof.
  apply (facade_both_or_neither DemoAttach.env Demo.attached 42 Demo.start).
  split; discriminate.
Defined.

(** ** Threads that run alone *)

Lemma rest_bind {A B} (m : Prog A) (k : A -> Prog B) :
  forall w,
    rest (bind m k) w =
    match run m w with
    | Returned a w' => rest (k a) w'
    | Blocked _ => bind (rest m w) k
    | Faulted _ => Fault
    end.
Proof.
  induction m as [a|upd next IH|cond m IH|]; intros w; simpl.
  - reflexivity.
  - apply IH.
  - destruct (cond w); [apply IH | reflexivity].
  - reflexivity.
Qed.

Lemma rest_returned {A} (m : Prog A) :
  forall w a w', run m w = Returned a w' -> rest m w = Ret a.
Proof.
  induction m as [a|upd next IH|cond m IH|]; intros w r w'; simpl.
  - intros H. injection H as <- _. reflexivity.
  - apply IH.
  - destruct (cond w); [apply IH | discriminate].
  - discriminate.
Qed.

Lemma rest_bind_returned {A B} (m : Prog A) (k : A -> Prog B) w a w' :
  run m w = Returned a w' -> rest (bind m k) w = rest (k a) w'.
Proof.
  intros H. rewrite rest_bind, H. reflexivity.
Qed.

Lemma reaches_trans {A} env (c1 c2 c3 : Config A) :
  reaches env c1 c2 -> reaches env c2 c3 -> reaches env c1 c3.
Proof.
  intros H12 H23. induction H23 as [c|c2 c3 c4 _ IH Hstep].
  - exact H12.
  - apply (reaches_step env c1 c3 c4); [apply IH, H12 | exact Hstep].
Qed.

(** The command thread can run on its own to where it comes to rest. *)
Lemma reaches_command_rest {A} env (m : Prog A) :
  forall h s w,
    reaches env {| cmd := m; handler := h; session := s; world := w |}
                {| cmd := rest m w; handler := h; session := s; world := final (run m w) |}.
Proof.
  induction m as [a|upd next IH|cond m IH|]; intros h s w; simpl.
  - apply reaches_here.
  - eapply reaches_first; [apply step_command, thread_atom|]. apply IH.
  - destruct (cond w) eqn:Hcond.
    + eapply reaches_first; [apply step_command, thread_wait, Hcond|]. apply IH.
    + apply reaches_here.
  - apply reaches_here.
Qed.

(** So can a handler. *)
Lemma reaches_handler_rest {A} env (c : Prog A) (m : Prog HRESULT) :
  forall s w,
    reaches env {| cmd := c; handler := Some m; session := s; world := w |}
                {| cmd := c; handler := Some (rest m w); session := s;
                   world := final (run m w) |}.
Proof.
  induction m as [a|upd next IH|cond m IH|]; intros s w; simpl.
  - apply reaches_here.
  - eapply reaches_first; [apply step_handler, thread_atom|]. apply IH.
  - destruct (cond w) eqn:Hcond.
    + eapply reaches_first; [apply step_handler, thread_wait, Hcond|]. apply IH.
    + apply reaches_here.
  - apply reaches_here.
Qed.

Section TerminationPossible.

Variable env : Collaborators.

(** With a process registered, [TerminateProcess] comes to rest in its
    wait, with the release of the process and the end of the debugging
    interface still to do. *)
Lemma rest_TerminateProcess this pProcess pDebug w :
  m_pProcess this = Some pProcess -> m_pDebug this = Some pDebug ->
  g_process w <> None ->
  rest (TerminateProcess this) w
  = Wait no_process
      (native (Call_Release (process_id pProcess)) ;;
       native (Call_CorDebugTerminate (cordebug_id pDebug)) ;;
       Ret (S_OK, idle))%prog.
Proof.
  intros Hp Hd Hg. unfold TerminateProcess, WaitProcessExited. rewrite Hp, Hd.
  assert (Hwait : forall cs, no_process (log_calls cs w) = false).
  { intros cs. unfold no_process. simpl. destruct (g_process w); [reflexivity|].
    contradiction. }
  rewrite (rest_bind_returned _ _ w (process_Stop pProcess)
             (log_calls [Call_Stop (process_id pProcess) 0] w))
    by (unfold Stop; repeat run_step; reflexivity).
  destruct (SUCCEEDED (process_Stop pProcess)).
  - destruct (run_DisableAllBreakpointsAndSteppers pProcess
                (log_calls [Call_Stop (process_id pProcess) 0] w)) as [Status Hrun].
    rewrite (rest_bind_returned _ _ _ tt
               (log_calls (process_calls pProcess)
                  (log_calls [Call_Stop (process_id pProcess) 0] w)))
      by (rewrite run_bind, Hrun; reflexivity).
    repeat (erewrite rest_bind_returned by apply run_native).
    rewrite !log_calls_app. rewrite rest_bind. cbn [run rest]. rewrite Hwait. reflexivity.
  - rewrite (rest_bind_returned _ _ _ tt (log_calls [Call_Stop (process_id pProcess) 0] w))
      by reflexivity.
    repeat (erewrite rest_bind_returned by apply run_native).
    rewrite !log_calls_app. rewrite rest_bind. cbn [run rest]. rewrite Hwait. reflexivity.
Qed.

(** X19. [TerminateProcess] can return: from an attached facade, with a
    process registered and the notification thread idle in a running
    session, there is a run of the two threads in which the command thread
    issues its calls up to [Terminate] and waits, the runtime delivers the
    exit, the handler empties the registry, and the command thread
    releases the process, ends the debugging interface and returns [S_OK]
    with the facade cleared.  The calls of that run are the ones up to the
    wait, the two of the handler, and the last two, in this order. *)
Theorem TerminateProcess_can_return (this : Debugger) pProcess pDebug registered (w : World) :
  m_pProcess this = Some pProcess ->
  m_pDebug this = Some pDebug ->
  g_process w = Some registered ->
  exists c',
    reaches env {| cmd := TerminateProcess this; handler := None;
                   session := Running; world := w |} c'
    /\ cmd c' = Ret (S_OK, idle)
    /\ exit_notified c'
    /\ g_process (world c') = None
    /\ calls (world c')
       = (calls w ++ kill_calls pProcess
          ++ [Call_NotifyEvalComplete; Call_Release (process_id registered)]
          ++ [Call_Release (process_id pProcess);
              Call_CorDebugTerminate (cordebug_id pDebug)])%list.
Proof.
  intros Hp Hd Hg.
  assert (Hsome : g_process w <> None) by (rewrite Hg; discriminate).
  pose proof (reaches_command_rest env (TerminateProcess this) None Running w) as Hkill.
  rewrite (rest_TerminateProcess this pProcess pDebug w Hp Hd Hsome) in Hkill.
  rewrite (run_TerminateProcess_blocked this pProcess pDebug w Hp Hd Hsome) in Hkill.
  cbn [final] in Hkill.
  eexists. split.
  - eapply reaches_trans; [exact Hkill|].
    eapply reaches_first;
      [apply (step_deliver env _ Running _ (N_ExitProcess registered) Exited); reflexivity|].
    eapply reaches_trans; [apply reaches_handler_rest|].
    cbn [dispatch]. unfold ManagedCallback_ExitProcess, NotifyProcessExited.
    cbn. rewrite Hg. cbn.
    eapply reaches_first; [apply step_handled|].
    command_wait. do 2 command_atom. apply reaches_here.
  - cbn. unfold exit_notified. cbn. repeat split.
    + left. reflexivity.
    + repeat (rewrite <- List.app_assoc; cbn [List.app]). reflexivity.
Qed.

End TerminationPossible.

Lemma TerminateProcess_can_return_witness :
  exists c',
    reaches Demo.env Demo.terminating c'
    /\ cmd c' = Ret (S_OK, idle)
    /\ exit_notified c'
    /\ g_process (world c') = None
    /\ calls (world c')
       = (calls Demo.registered ++ kill_calls Demo.process
          ++ [Call_NotifyEvalComplete; Call_Release (process_id Demo.process)]
          ++ [Call_Release (process_id Demo.process);
              Call_CorDebugTerminate (cordebug_id Demo.cordebug)])%list.
Proof.
  exact (TerminateProcess_can_return Demo.env Demo.attached Demo.process Demo.cordebug
           Demo.process Demo.registered eq_refl eq_refl eq_refl).
Defined.

(** ** The references of the callback object *)

Section CallbackReferences.

Import ManagedCallback.

Lemma uses_app (a b : list Use) :
  forall this,
    uses (a ++ b) this =
    match uses a this with
    | Some after => uses b after
    | None => None
    end.
Proof.
  induction a as [|u a IH]; intros this; simpl.
  - reflexivity.
  - destruct this as [count|]; [apply IH | reflexivity].
Qed.

Lemma taken_cons u us : taken (u :: us) = (if takes u then 1 else 0) + taken us.
Proof.
  unfold taken. cbn [List.filter]. destruct (takes u); cbn [List.length]; lia.
Qed.

Lemma given_cons u us : given (u :: us) = (if gives u then 1 else 0) + given us.
Proof.
  unfold given. cbn [List.filter]. destruct (gives u); cbn [List.length]; lia.
Qed.

Lemma taken_nonnegative us : 0 <= taken us.
Proof. unfold taken. lia. Qed.

Lemma use_count u c :
  0 < c -> c + (if takes u then 1 else 0) < 2 ^ 32 ->
  (if gives u then 1 else 0) < c + (if takes u then 1 else 0) ->
  use u c = Some (c + (if takes u then 1 else 0) - (if gives u then 1 else 0)).
Proof.
  intros Hc Hmax Hlive.
  assert (Hup : Int.u32 (c + 1) = c + 1 \/ takes u = false).
  { destruct (takes u); [left|right; reflexivity].
    unfold Int.u32, Int.wrap. apply Z.mod_small. lia. }
  destruct u as [| |[| | |guid]]; cbn in *;
    try (destruct Hup as [->|Hup]; [f_equal; lia | discriminate Hup]).
  - assert (Hdown : Int.u32 (c - 1) = c - 1).
    { unfold Int.u32, Int.wrap. apply Z.mod_small. lia. }
    rewrite Hdown. destruct (Z.eqb_spec (c - 1) 0); [lia|]. f_equal. lia.
  - f_equal. lia.
Qed.

Lemma uses_count (us : list Use) :
  forall c,
    c + taken us < 2 ^ 32 ->
    (forall n, given (List.firstn n us) < c + taken (List.firstn n us)) ->
    uses us (Some c) = Some (Some (c + taken us - given us)).
Proof.
  induction us as [|u us IH]; intros c Hmax Hlive.
  - cbn. do 2 f_equal. unfold taken, given. cbn. lia.
  - pose proof (Hlive 0%nat) as H0. pose proof (Hlive 1%nat) as H1.
    cbn [List.firstn] in H0, H1. rewrite taken_cons, given_cons in H1.
    unfold taken, given in H0, H1. cbn in H0, H1.
    pose proof (taken_nonnegative us) as Hus.
    rewrite taken_cons in Hmax.
    cbn [uses]. rewrite use_count; [|lia|destruct (takes u); lia|lia].
    rewrite IH.
    + do 2 f_equal. rewrite taken_cons, given_cons. destruct (takes u), (gives u); lia.
    + destruct (takes u), (gives u); lia.
    + intros n. specialize (Hlive (S n)). cbn [List.firstn] in Hlive.
      rewrite taken_cons, given_cons in Hlive. destruct (takes u), (gives u); lia.
Qed.

(** X20. The count of the callback object.  From a count [c], through
    calls of [AddRef], [Release] and [QueryInterface] in any order, as
    long as fewer references were given back than [c] and the ones taken
    since, and the count stays below [2^32]: the object lives, and its
    count is [c] plus the references taken minus the ones given back,
    where [QueryInterface] takes one for each of its three interfaces and
    none for another.  One more [Release] deletes the object exactly when
    that count is one, and a call after that is a call on a deleted
    object. *)
Theorem ManagedCallback_reference_count (us : list Use) (c : Z) :
  c + taken us < 2 ^ 32 ->
  (forall n, given (List.firstn n us) < c + taken (List.firstn n us)) ->
  uses us (Some c) = Some (Some (c + taken us - given us))
  /\ uses (us ++ [Use_Release]) (Some c)
     = Some (if c + taken us - given us =? 1 then None
             else Some (c + taken us - given us - 1))
  /\ (c + taken us - given us = 1 ->
      forall u, uses (us ++ [Use_Release; u]) (Some c) = None).
Proof.
  intros Hmax Hlive. set (count := c + taken us - given us).
  pose proof (uses_count us c Hmax Hlive) as Hcount. fold count in Hcount.
  assert (Hpositive : 0 < count).
  { specialize (Hlive (List.length us)). rewrite List.firstn_all in Hlive.
    unfold count. lia. }
  assert (Hbound : count < 2 ^ 32).
  { unfold count. unfold given. lia. }
  assert (Hdown : Int.u32 (count - 1) = count - 1).
  { unfold Int.u32, Int.wrap. apply Z.mod_small. lia. }
  split; [exact Hcount|]. split.
  - rewrite uses_app, Hcount. cbn. rewrite Hdown.
    destruct (Z.eqb_spec (count - 1) 0), (Z.eqb_spec count 1); try lia; reflexivity.
  - intros Hone u. rewrite uses_app, Hcount. cbn. rewrite Hdown, Hone. reflexivity.
Qed.

End CallbackReferences.

Lemma ManagedCallback_reference_count_witness :
  ManagedCallback.uses DemoCallback.held ManagedCallback.new = Some (Some 1)
  /\ ManagedCallback.uses (DemoCallback.held ++ [ManagedCallback.Use_Release])
       ManagedCallback.new
     = Some None
  /\ (1 = 1 -> forall u,
        ManagedCallback.uses (DemoCallback.held ++ [ManagedCallback.Use_Release; u])
          ManagedCallback.new
        = None).
Proof.
  apply (ManagedCallback_reference_count DemoCallback.held 1).
  - reflexivity.
  - intros n. do 6 (destruct n as [|n]; [reflexivity|]). reflexivity.
Defined.

(** ** The entry point *)

Section EntryPoint.

Import Main.

Variable strtoul : string -> Z * string.
Variable env : Collaborators.

Lemma options_app_bounded (n : nat) :
  forall a p q b,
    (List.length a <= n)%nat ->
    options strtoul a p = Options_pid q ->
    options strtoul (a ++ b) p = options strtoul b q.
Proof.
  induction n as [|n IH]; intros a p q b Hlen Hrun.
  - destruct a; [|simpl in Hlen; lia]. cbn in Hrun. injection Hrun as <-. reflexivity.
  - destruct a as [|arg rest].
    + cbn in Hrun. injection Hrun as <-. reflexivity.
    + cbn [options List.app] in *. cbn [List.length] in Hlen.
      destruct (String.eqb arg "--attach").
      * destruct rest as [|value rest']; [discriminate Hrun|].
        cbn [List.app]. destruct (strtoul value) as [number err].
        destruct (negb (String.eqb err "")); [discriminate Hrun|].
        apply IH; [cbn [List.length] in Hlen; lia | exact Hrun].
      * destruct (String.eqb arg "--interpreter=mi").
        -- apply IH; [lia | exact Hrun].
        -- destruct (String.eqb arg "--help"); discriminate Hrun.
Qed.

(** X21. The options are read from left to right.  When the loop runs
    through a first part of the arguments, what follows is read as if it
    stood alone, with the process id that the first part left.  So
    [--help] behind it ends the program with the help text and
    [EXIT_SUCCESS], whatever follows, and an [--attach] with a number at
    the very end overrides every earlier one; the number is cut to 32
    bits. *)
Theorem options_left_to_right (a b : list string) (p q : Z) :
  options strtoul a p = Options_pid q ->
  options strtoul (a ++ b) p = options strtoul b q
  /\ options strtoul (a ++ "--help" :: b) p = Options_return EXIT_SUCCESS help
  /\ forall value number,
       strtoul value = (number, "") ->
       options strtoul (a ++ ["--attach"; value]) p = Options_pid (Int.u32 number).
Proof.
  intros Hrun. split; [|split].
  - exact (options_app_bounded _ a p q b (le_n _) Hrun).
  - rewrite (options_app_bounded _ a p q _ (le_n _) Hrun). reflexivity.
  - intros value number Hvalue.
    rewrite (options_app_bounded _ a p q _ (le_n _) Hrun).
    cbn [options]. change (String.eqb "--attach" "--attach") with true. cbv iota.
    rewrite Hvalue. reflexivity.
Qed.

Lemma options_pid_range (a : list string) :
  forall p q,
    options strtoul a p = Options_pid q ->
    0 <= p < 2 ^ 32 -> 0 <= q < 2 ^ 32.
Proof.
  assert (Hbounded : forall n a p q,
             (List.length a <= n)%nat ->
             options strtoul a p = Options_pid q ->
             0 <= p < 2 ^ 32 -> 0 <= q < 2 ^ 32).
  { induction n as [|n IH]; intros l p q Hlen Hrun Hp.
    - destruct l; [|simpl in Hlen; lia]. cbn in Hrun. injection Hrun as <-. exact Hp.
    - destruct l as [|arg rest].
      + cbn in Hrun. injection Hrun as <-. exact Hp.
      + cbn [options] in Hrun. cbn [List.length] in Hlen.
        destruct (String.eqb arg "--attach").
        * destruct rest as [|value rest']; [discriminate Hrun|].
          destruct (strtoul value) as [number err].
          destruct (negb (String.eqb err "")); [discriminate Hrun|].
          apply (IH rest' (Int.u32 number) q); [cbn [List.length] in Hlen; lia | exact Hrun|].
          unfold Int.u32, Int.wrap. apply Z.mod_pos_bound. lia.
        * destruct (String.eqb arg "--interpreter=mi").
          -- apply (IH rest p q); [lia | exact Hrun | exact Hp].
          -- destruct (String.eqb arg "--help"); discriminate Hrun. }
  intros p q. exact (Hbounded _ a p q (le_n _)).
Qed.

Lemma help_line : exists line, help = (line ++ Fmt.nl)%string.
Proof.
  exists (String.substring 0 (String.length help - 1) help). reflexivity.
Qed.

Lemma options_return_line (a : list string) :
  forall p status err,
    options strtoul a p = Options_return status err ->
    (status = EXIT_SUCCESS /\ err = help)
    \/ (status = EXIT_FAILURE /\ exists line, err = (line ++ Fmt.nl)%string).
Proof.
  assert (Hbounded : forall n a p status err,
             (List.length a <= n)%nat ->
             options strtoul a p = Options_return status err ->
             (status = EXIT_SUCCESS /\ err = help)
             \/ (status = EXIT_FAILURE /\ exists line, err = (line ++ Fmt.nl)%string)).
  { induction n as [|n IH]; intros l p status err Hlen Hrun.
    - destruct l; [discriminate Hrun | simpl in Hlen; lia].
    - destruct l as [|arg rest]; [discriminate Hrun|].
      cbn [options] in Hrun. cbn [List.length] in Hlen.
      destruct (String.eqb arg "--attach").
      + destruct rest as [|value rest'].
        * injection Hrun as <- <-. right. split; [reflexivity|].
          exists "Error: Missing process id". reflexivity.
        * destruct (strtoul value) as [number rest].
          destruct (negb (String.eqb rest "")).
          -- injection Hrun as <- <-. right. split; [reflexivity|].
             exists "Error: Missing process id". reflexivity.
          -- apply (IH rest' (Int.u32 number)); [cbn [List.length] in Hlen; lia | exact Hrun].
      + destruct (String.eqb arg "--interpreter=mi").
        * apply (IH rest p); [lia | exact Hrun].
        * destruct (String.eqb arg "--help"); injection Hrun as <- <-.
          -- left. split; reflexivity.
          -- right. split; [reflexivity|].
             exists ("Error: Unknown option " ++ Fmt.s arg)%string.
             rewrite append_assoc. reflexivity. }
  intros p status err. exact (Hbounded _ a p status err (le_n _)).
Qed.

(** X22. [main] with a facade that is not attached always comes to its
    end, and has then done no more than issue calls.  It returns
    [EXIT_SUCCESS] before the command loop only with the help text on
    [stderr] and nothing done; it returns [EXIT_FAILURE] only with a line
    on [stderr].  It enters the command loop either with the facade and
    the state untouched, or behind an [AttachToProcess] for a process id
    other than zero whose status is no failure. *)
Theorem main_ends (debugger : Debugger) (argv : list string) (w : World) :
  attached_flag debugger = false ->
  exists e cs,
    run (main strtoul env debugger argv) w = Returned e (log_calls cs w)
    /\ match e with
       | Return status err =>
           (status = EXIT_SUCCESS /\ err = help /\ cs = [])
           \/ (status = EXIT_FAILURE /\ exists line, err = (line ++ Fmt.nl)%string)
       | CommandLoop this =>
           (this = debugger /\ cs = [])
           \/ (exists pid s,
                 pid <> 0
                 /\ FAILED (HRESULT_of s) = false
                 /\ run (AttachToProcess env debugger pid) w
                    = Returned (s, this) (log_calls cs w))
       end.
Proof.
  intros Hflag. unfold main.
  destruct (List.length argv <=? 1)%nat.
  { exists (Return EXIT_FAILURE help), []. rewrite log_calls_nil. split; [reflexivity|].
    right. split; [reflexivity | exact help_line]. }
  destruct (options strtoul (List.tl argv) 0) as [pid|status err] eqn:Hoptions.
  2:{ exists (Return status err), []. rewrite log_calls_nil. split; [reflexivity|].
      destruct (options_return_line _ _ _ _ Hoptions) as [[-> ->]|[-> Hline]].
      - left. repeat split.
      - right. split; [reflexivity | exact Hline]. }
  destruct (Z.eqb_spec pid 0) as [->|Hpid]; cbn [negb].
  { exists (CommandLoop debugger), []. rewrite log_calls_nil. split; [reflexivity|].
    left. split; reflexivity. }
  assert (Hint : Int.i32 pid <> 0).
  { assert (Hrange : 0 <= pid < 2 ^ 32).
    { apply (options_pid_range _ _ _ Hoptions). lia. }
    unfold Int.i32, Int.u32, Int.wrap. rewrite Z.mod_small by exact Hrange.
    destruct (Z.ltb_spec pid (2 ^ 31)); lia. }
  assert (Hattach : exists s this' cs,
             run (AttachToProcess env debugger (Int.i32 pid)) w
             = Returned (s, this') (log_calls cs w)).
  { unfold AttachToProcess. rewrite Hflag.
    destruct (AttachToProcess_connect_outcome env debugger (Int.i32 pid) w)
      as (s & this' & cs & Hrun & _).
    exists s, this', cs. exact Hrun. }
  destruct Hattach as (s & this' & cs & Hrun).
  rewrite run_bind, Hrun. cbn [fst snd].
  destruct (FAILED (HRESULT_of s)) eqn:Hfailed.
  - eexists _, cs. split; [reflexivity|]. right. split; [reflexivity|].
    exists ("Error: 0x" ++ Fmt.hex (Int.u32 (HRESULT_of s)) ++ " Failed to attach to "
            ++ Fmt.i (Int.i32 pid))%string.
    rewrite !append_assoc. reflexivity.
  - exists (CommandLoop this'), cs. split; [reflexivity|].
    right. exists (Int.i32 pid), s. repeat split; assumption.
Qed.

(** X23. An [--attach] whose number is zero in 32 bits is accepted and
    then ignored: behind options that the loop runs through, with nothing
    but [--interpreter=mi] after it, [main] enters the command loop
    without a call of [AttachToProcess], without a word on [stderr], and
    whatever process id an earlier [--attach] gave. *)
Theorem main_attach_zero (debugger : Debugger) (program : string) (a b : list string)
    (q : Z) (value : string) (number : Z) (w : World) :
  options strtoul a 0 = Options_pid q ->
  strtoul value = (number, "") ->
  Int.u32 number = 0 ->
  List.forallb (fun arg => String.eqb arg "--interpreter=mi") b = true ->
  run (main strtoul env debugger (program :: a ++ "--attach" :: value :: b)) w
  = Returned (CommandLoop debugger) w.
Proof.
  intros Ha Hvalue Hzero Hb. unfold main.
  assert (Hlen : (List.length (program :: a ++ "--attach" :: value :: b) <=? 1)%nat = false).
  { apply Nat.leb_gt. cbn [List.length]. rewrite List.length_app. cbn [List.length]. lia. }
  rewrite Hlen. cbn [List.tl].
  rewrite (options_app_bounded _ a 0 q _ (le_n _) Ha).
  cbn [options]. change (String.eqb "--attach" "--attach") with true. cbv iota.
  rewrite Hvalue. cbn [String.eqb negb]. rewrite Hzero.
  assert (Hrest : forall p, options strtoul b p = Options_pid p).
  { clear - Hb. induction b as [|arg rest IH]; intros p; [reflexivity|].
    cbn [List.forallb] in Hb. apply andb_prop in Hb. destruct Hb as [Harg Hrest].
    apply String.eqb_eq in Harg. subst arg. cbn [options].
    change (String.eqb "--interpreter=mi" "--attach") with false.
    change (String.eqb "--interpreter=mi" "--interpreter=mi") with true. cbv iota.
    apply IH, Hrest. }
  rewrite Hrest. reflexivity.
Qed.

End EntryPoint.

Lemma options_left_to_right_witness :
  Main.options DemoMain.strtoul (["--interpreter=mi"; "--attach"; "12"] ++ ["--attach"; "34"]) 0
  = Main.options DemoMain.strtoul ["--attach"; "34"] 12
  /\ Main.options DemoMain.strtoul
       (["--interpreter=mi"; "--attach"; "12"] ++ "--help" :: ["--attach"; "34"]) 0
     = Main.Options_return Main.EXIT_SUCCESS Main.help
  /\ forall value number,
       DemoMain.strtoul value = (number, "") ->
       Main.options DemoMain.strtoul
         (["--interpreter=mi"; "--attach"; "12"] ++ ["--attach"; value]) 0
       = Main.Options_pid (Int.u32 number).
Proof.
  apply (options_left_to_right DemoMain.strtoul
           ["--interpreter=mi"; "--attach"; "12"] ["--attach"; "34"] 0 12).
  reflexivity.
Defined.

Lemma main_ends_witness :
  exists e cs,
    run (Main.main DemoMain.strtoul DemoAttach.env idle ["netcoredbg"; "--attach"; "42"])
        Demo.start
    = Returned e (log_calls cs Demo.start)
    /\ match e with
       | Main.Return status err =>
           (status = Main.EXIT_SUCCESS /\ err = Main.help /\ cs = [])
           \/ (status = Main.EXIT_FAILURE /\ exists line, err = (line ++ Fmt.nl)%string)
       | Main.CommandLoop this =>
           (this = idle /\ cs = [])
           \/ (exists pid s,
                 pid <> 0
                 /\ FAILED (HRESULT_of s) = false
                 /\ run (AttachToProcess DemoAttach.env idle pid) Demo.start
                    = Returned (s, this) (log_calls cs Demo.start))
       end.
Proof.
  exact (main_ends DemoMain.strtoul DemoAttach.env idle ["netcoredbg"; "--attach"; "42"]
           Demo.start eq_refl).
Defined.

Lemma main_attach_zero_witness :
  run (Main.main DemoMain.strtoul DemoAttach.env idle
         ("netcoredbg" :: ["--attach"; "12"] ++ "--attach" :: "0" :: ["--interpreter=mi"]))
      Demo.start
  = Returned (Main.CommandLoop idle) Demo.start.
Proof.
  apply (main_attach_zero DemoMain.strtoul DemoAttach.env idle "netcoredbg"
           ["--attach"; "12"] ["--interpreter=mi"] 12 "0" 0 Demo.start); reflexivity.
Defined.

(** ** The output of the two threads *)

Lemma only_called_refl w : only_called w w.
Proof. exists []. symmetry. apply log_calls_nil. Qed.

Lemma only_called_trans w1 w2 w3 :
  only_called w1 w2 -> only_called w2 w3 -> only_called w1 w3.
Proof.
  intros [cs1 ->] [cs2 ->]. exists (cs1 ++ cs2)%list. apply log_calls_app.
Qed.

Lemma only_called_only_appended w w' : only_called w w' -> only_appended w w'.
Proof.
  intros [cs ->]. split.
  - exists "". split; [symmetry; apply append_empty | left; reflexivity].
  - exists cs. reflexivity.
Qed.

Lemma within_weaken {A} (rel rel' : World -> World -> Prop) (m : Prog A) :
  (forall w w', rel w w' -> rel' w w') -> within rel m -> within rel' m.
Proof.
  intros Hrel H. induction H as [a|upd next Hupd _ IH|cond k _ IH|].
  - apply within_ret.
  - apply within_atom; [intros w; apply Hrel, Hupd | exact IH].
  - apply within_wait, IH.
  - apply within_fault.
Qed.

Lemma within_only_called_native c : within only_called (native c).
Proof.
  apply within_atomic. intros w. exists [c]. apply log_call_log_calls.
Qed.

Lemma within_only_called_DisableAllBreakpointsAndSteppers pProcess :
  within only_called (DisableAllBreakpointsAndSteppers pProcess).
Proof.
  unfold DisableAllBreakpointsAndSteppers.
  destruct (process_EnumerateAppDomains pProcess) as [domains|Status];
    [|apply within_ret].
  apply within_bind; [|intros _; apply within_ret].
  apply within_for_each. intros pDomain.
  apply within_bind; [|intros _; apply within_ret].
  unfold DisableAllBreakpointsAndSteppersInAppDomain.
  repeat (apply within_bind; [|intros _]);
    try apply within_ret; try apply within_only_called_native.
  - destruct (appdomain_EnumerateBreakpoints pDomain); [|apply within_ret].
    apply within_for_each. intros b. apply within_only_called_native.
  - destruct (appdomain_EnumerateSteppers pDomain); [|apply within_ret].
    apply within_for_each. intros s. apply within_only_called_native.
Qed.

Lemma within_only_called_DetachFromProcess this :
  within only_called (DetachFromProcess this).
Proof.
  unfold DetachFromProcess, Stop.
  destruct (m_pProcess this) as [pProcess|]; [|apply within_ret].
  destruct (m_pDebug this) as [pDebug|]; [|apply within_ret].
  repeat (apply within_bind; [|intros ?]);
    try apply within_ret; try apply within_only_called_native.
  destruct (SUCCEEDED _); [|apply within_ret].
  apply within_bind; [apply within_only_called_DisableAllBreakpointsAndSteppers|].
  intros _. apply within_only_called_native.
Qed.

Lemma within_only_called_TerminateProcess this :
  within only_called (TerminateProcess this).
Proof.
  unfold TerminateProcess, Stop, WaitProcessExited.
  destruct (m_pProcess this) as [pProcess|]; [|apply within_ret].
  destruct (m_pDebug this) as [pDebug|]; [|apply within_ret].
  repeat (apply within_bind; [|intros ?]);
    try apply within_ret; try apply within_only_called_native.
  - destruct (SUCCEEDED _); [|apply within_ret].
    apply within_bind; [apply within_only_called_DisableAllBreakpointsAndSteppers|].
    intros _. apply within_ret.
  - apply within_wait, within_ret.
Qed.

Section Output.

Variable env : Collaborators.

Lemma within_only_called_AttachToProcess_connect this pid :
  within only_called (AttachToProcess_connect env this pid).
Proof.
  unfold AttachToProcess_connect.
  repeat first
    [ apply within_ret
    | apply within_only_called_native
    | apply within_bind; [|intros ?]
    | match goal with
      | |- within _ (if ?b then _ else _) => destruct b
      | |- within _ (match ?x with _ => _ end) => destruct x
      end ].
Qed.

Lemma within_only_called_AttachToProcess this pid :
  within only_called (AttachToProcess env this pid).
Proof.
  unfold AttachToProcess. destruct (attached_flag this).
  - apply within_bind.
    + apply within_atomic. intros w. apply only_called_refl.
    + intros [registered|]; [apply within_ret|].
      apply within_bind; [apply within_only_called_TerminateProcess|].
      intros terminated. apply within_only_called_AttachToProcess_connect.
  - apply within_only_called_AttachToProcess_connect.
Qed.

Lemma thread_step_within {A} rel (m m' : Prog A) w w' :
  (forall v, rel v v) ->
  within rel m -> thread_step m w m' w' -> rel w w' /\ within rel m'.
Proof.
  intros Hrefl Hm Hstep. destruct Hstep as [upd next w|cond k w Hcond].
  - inversion Hm as [|upd' next' Hupd Hnext| |]; subst. split; [apply Hupd | apply Hnext].
  - inversion Hm as [| |cond' k' Hk|]; subst. split; [apply Hrefl | exact Hk].
Qed.

Lemma step_only_appended {A} (c c' : Config A) :
  step env c c' ->
  within only_appended (cmd c) ->
  (forall h, handler c = Some h -> within only_appended h) ->
  only_appended (world c) (world c')
  /\ within only_appended (cmd c')
  /\ (forall h, handler c' = Some h -> within only_appended h).
Proof.
  intros Hstep Hcmd Hhandler.
  destruct Hstep as [c1 h s w c2 w' Hthread|c1 s w n s' Hdeliver
                    |c1 h1 s w h2 w' Hthread|c1 hr s w]; cbn in *.
  - destruct (thread_step_within only_appended _ _ _ _ only_appended_refl Hcmd Hthread)
      as [Hworld Hnext].
    split; [|split]; assumption.
  - split; [|split]; [apply only_appended_refl | exact Hcmd|].
    intros h Hh. injection Hh as <-. apply within_only_appended_dispatch.
  - destruct (thread_step_within only_appended _ _ _ _ only_appended_refl
                (Hhandler h1 eq_refl) Hthread) as [Hworld Hnext].
    split; [|split]; [exact Hworld | exact Hcmd|].
    intros h Hh. injection Hh as <-. exact Hnext.
  - split; [|split]; [apply only_appended_refl | exact Hcmd|]. intros h Hh. discriminate Hh.
Qed.

Lemma reaches_only_appended {A} (c0 c : Config A) :
  reaches env c0 c ->
  within only_appended (cmd c0) ->
  (forall h, handler c0 = Some h -> within only_appended h) ->
  only_appended (world c0) (world c)
  /\ within only_appended (cmd c)
  /\ (forall h, handler c = Some h -> within only_appended h).
Proof.
  intros Hreach Hcmd Hhandler. induction Hreach as [c|c1 c2 c3 _ IH Hstep].
  - split; [|split]; [apply only_appended_refl | exact Hcmd | exact Hhandler].
  - destruct (IH Hcmd Hhandler) as (Hworld & Hcmd2 & Hhandler2).
    destruct (step_only_appended c2 c3 Hstep Hcmd2 Hhandler2) as (Hnext & Hcmd3 & Hhandler3).
    split; [|split]; [|exact Hcmd3 | exact Hhandler3].
    exact (only_appended_trans _ _ _ Hworld Hnext).
Qed.

(** X24. The facade writes nothing, and the output of the two threads
    comes in whole lines.  [AttachToProcess], [DetachFromProcess] and
    [TerminateProcess] issue calls and change nothing else of the state,
    however they end.  So while the command thread is in one of them and
    the runtime delivers whatever notifications it delivers, in every
    state that the two threads reach, between any two of their steps, the
    output is what it was at the call followed by whole lines: no line of
    a handler is cut in two. *)
Theorem output_in_whole_lines :
  (forall this pid w,
      only_called w (final (run (AttachToProcess env this pid) w))
      /\ only_called w (final (run (DetachFromProcess this) w))
      /\ only_called w (final (run (TerminateProcess this) w)))
  /\ (forall (c0 c : Config (HRESULT * Debugger)) this,
         cmd c0 = DetachFromProcess this \/ cmd c0 = TerminateProcess this ->
         handler c0 = None ->
         reaches env c0 c ->
         only_appended (world c0) (world c))
  /\ (forall (c0 c : Config (AttachStatus * Debugger)) this pid,
         cmd c0 = AttachToProcess env this pid ->
         handler c0 = None ->
         reaches env c0 c ->
         only_appended (world c0) (world c)).
Proof.
  split; [|split].
  - intros this pid w. repeat split;
      apply within_run;
      first [ exact only_called_refl | exact only_called_trans
            | apply within_only_called_AttachToProcess
            | apply within_only_called_DetachFromProcess
            | apply within_only_called_TerminateProcess ].
  - intros c0 c this Hcmd Hhandler Hreach.
    apply (reaches_only_appended c0 c Hreach).
    + apply (within_weaken only_called); [exact only_called_only_appended|].
      destruct Hcmd as [-> | ->];
        [apply within_only_called_DetachFromProcess
        | apply within_only_called_TerminateProcess].
    + intros h Hh. rewrite Hhandler in Hh. discriminate Hh.
  - intros c0 c this pid Hcmd Hhandler Hreach.
    apply (reaches_only_appended c0 c Hreach).
    + apply (within_weaken only_called); [exact only_called_only_appended|].
      rewrite Hcmd. apply within_only_called_AttachToProcess.
    + intros h Hh. rewrite Hhandler in Hh. discriminate Hh.
Qed.

End Output.

Lemma output_in_whole_lines_witness :
  only_appended (world Demo.terminating) (world Demo.terminated).
Proof.
  apply (proj1 (proj2 (output_in_whole_lines Demo.env))
           Demo.terminating Demo.terminated Demo.attached).
  - right. reflexivity.
  - reflexivity.
  - exact Demo_terminates.
Defined.

(** ** The thread of a stop *)

Section StoppedThread.

Variable env : Collaborators.

(** X25. The thread id of a stop line is the last stopped thread.  The
    handlers of a breakpoint, of a completed step and of an unhandled
    exception return [S_OK] with one [*stopped] line written whose
    [thread-id] field holds the id that [GetLastStoppedThreadId] returns
    from then on: the id that the thread reports, as an [int], or zero
    when the thread does not report one.  They call nothing, so the
    debuggee stays stopped, and they leave the registry alone. *)
Theorem stopped_line_names_last_stopped_thread (n : Notification)
    (pThread : ICorDebugThread) (w : World) :
  stopped_thread n = Some pThread ->
  exists id reason rest w',
    run (dispatch env n) w = Returned S_OK w'
    /\ id = match thread_GetID pThread with
            | COk threadId => Int.i32 threadId
            | CErr _ => 0
            end
    /\ stdout w' = (stdout w ++ "*stopped,reason=" ++ reason
                    ++ ",thread-id=" ++ quoted (Fmt.i id)
                    ++ ",stopped-threads=" ++ quoted "all" ++ "," ++ rest ++ Fmt.nl)%string
    /\ run GetLastStoppedThreadId w' = Returned id w'
    /\ calls w' = calls w
    /\ g_process w' = g_process w.
Proof.
  intros Hn.
  assert (Hid : Int.i32 (out_param 0 (thread_GetID pThread))
                = match thread_GetID pThread with
                  | COk threadId => Int.i32 threadId
                  | CErr _ => 0
                  end).
  { destruct (thread_GetID pThread); reflexivity. }
  set (id := match thread_GetID pThread with
             | COk threadId => Int.i32 threadId
             | CErr _ => 0
             end) in *.
  destruct n; try discriminate Hn; cbn [stopped_thread] in Hn.
  - injection Hn as ->.
    exists id, (quoted "breakpoint-hit"),
      ("bkptno=" ++ quoted (Fmt.u (Int.u32 (out_param 0 (FindCurrentBreakpointId env pThread))))
       ++ ",frame={" ++ Fmt.s (frame_location env pThread) ++ "}")%string,
      (set_g_lastStoppedThreadId id
         (write_stdout
            ("*stopped,reason=" ++ quoted "breakpoint-hit"
             ++ ",thread-id=" ++ quoted (Fmt.i id)
             ++ ",stopped-threads=" ++ quoted "all"
             ++ ",bkptno="
             ++ quoted (Fmt.u (Int.u32 (out_param 0 (FindCurrentBreakpointId env pThread))))
             ++ ",frame={" ++ Fmt.s (frame_location env pThread) ++ "}" ++ Fmt.nl) w)).
    split; [|split; [reflexivity|split]].
    + cbn [dispatch]. unfold ManagedCallback_Breakpoint, SetLastStoppedThread.
      rewrite Hid. reflexivity.
    + cbn [stdout set_g_lastStoppedThreadId write_stdout]. f_equal.
      generalize (Fmt.i id) as shown. intros shown.
      unfold quoted. rewrite !append_assoc. reflexivity.
    + repeat split.
  - injection Hn as ->.
    exists id, (quoted "end-stepping-range"), (Fmt.s (frame_location env pThread)),
      (set_g_lastStoppedThreadId id
         (write_stdout
            ("*stopped,reason=" ++ quoted "end-stepping-range"
             ++ ",thread-id=" ++ quoted (Fmt.i id)
             ++ ",stopped-threads=" ++ quoted "all"
             ++ "," ++ Fmt.s (frame_location env pThread) ++ Fmt.nl) w)).
    split; [|split; [reflexivity|split]].
    + cbn [dispatch]. unfold ManagedCallback_StepComplete, SetLastStoppedThread.
      rewrite Hid. reflexivity.
    + reflexivity.
    + repeat split.
  - destruct (truth unhandled) eqn:Hunhandled; [|discriminate Hn].
    injection Hn as ->.
    exists id, (quoted "exception-received" ++ ",exception-stage=" ++ quoted "unhandled")%string,
      (Fmt.s (frame_location env pThread)),
      (write_stdout
         ("*stopped,reason=" ++ quoted "exception-received"
          ++ ",exception-stage=" ++ quoted (Fmt.s "unhandled")
          ++ ",thread-id=" ++ quoted (Fmt.i id)
          ++ ",stopped-threads=" ++ quoted "all"
          ++ "," ++ Fmt.s (frame_location env pThread) ++ Fmt.nl)
         (set_g_lastStoppedThreadId id w)).
    split; [|split; [reflexivity|split]].
    + cbn [dispatch]. unfold ManagedCallback_Exception, SetLastStoppedThread.
      rewrite Hunhandled, Hid. reflexivity.
    + cbn [stdout set_g_lastStoppedThreadId write_stdout]. f_equal.
    + repeat split.
Qed.

End StoppedThread.

Lemma stopped_line_names_last_stopped_thread_witness :
  exists id reason rest w',
    run (dispatch Demo.env (N_StepComplete Demo.appdomain Demo.thread
                              {| stepper_id := 1 |} 0)) Demo.registered
    = Returned S_OK w'
    /\ id = match thread_GetID Demo.thread with
            | COk threadId => Int.i32 threadId
            | CErr _ => 0
            end
    /\ stdout w' = (stdout Demo.registered ++ "*stopped,reason=" ++ reason
                    ++ ",thread-id=" ++ quoted (Fmt.i id)
                    ++ ",stopped-threads=" ++ quoted "all" ++ "," ++ rest ++ Fmt.nl)%string
    /\ run GetLastStoppedThreadId w' = Returned id w'
    /\ calls w' = calls Demo.registered
    /\ g_process w' = g_process Demo.registered.
Proof.
  exact (stopped_line_names_last_stopped_thread Demo.env
           (N_StepComplete Demo.appdomain Demo.thread {| stepper_id := 1 |} 0)
           Demo.thread Demo.registered eq_refl).
Defined.
